(** * Rate limiters and schema translation of [verl/tools/utils/mcp_clients/utils.py]

    The three token buckets ([TokenBucket], [RPMBucket], [CallBucket]) are
    embedded as methods in a small state monad over a record holding the
    attributes of [self].  Python floats are idealised as exact rationals
    ([Q]); the value read from [time.time()] is an explicit argument [now] of
    every method.  Each method body runs under [self.lock], so a method is one
    atomic state transformer and a history of a bucket is a list of calls.

    [mcp2openai] builds dictionaries that share the tool's [inputSchema]
    object, so it is embedded over a store of Python objects addressed by
    location. *)

From Stdlib Require Import QArith Qminmax Qround Lqa.
From stdpp Require Import gmap strings list fin_maps.

Open Scope Q_scope.

(** ** A state monad for method bodies *)

Definition State (S A : Type) : Type := S -> A * S.

Definition ret {S A : Type} (a : A) : State S A := fun s => (a, s).

Definition bind {S A B : Type} (m : State S A) (k : A -> State S B) : State S B :=
  fun s => let (a, s') := m s in k a s'.

Definition gets {S A : Type} (f : S -> A) : State S A := fun s => (f s, s).

Definition modify {S : Type} (f : S -> S) : State S unit := fun s => (tt, f s).

Declare Scope state_scope.
Delimit Scope state_scope with state.
Notation "x <- c ;; k" := (bind c (fun x => k))
  (at level 20, c at level 99, k at level 200, only parsing) : state_scope.
Notation "c ;; k" := (bind c (fun _ => k))
  (at level 100, k at level 200, only parsing) : state_scope.
Open Scope state_scope.

(** [a >= b] on Python numbers, as a boolean. *)
Definition geb (a b : Q) : bool := Qle_bool b a.

(** ** [class TokenBucket] *)

Module TokenBucket.

Record self : Type := Self {
  rate_limit : Q;   (* tokens per second *)
  tokens : Q;
  last_update : Q
}.

Definition set_tokens (v : Q) (s : self) : self :=
  {| rate_limit := rate_limit s; tokens := v; last_update := last_update s |}.

Definition set_last_update (v : Q) (s : self) : self :=
  {| rate_limit := rate_limit s; tokens := tokens s; last_update := v |}.

(** [__init__(self, rate_limit)], with [now] the value of [time.time()]. *)
Definition __init__ (rate_limit : Q) (now : Q) : self :=
  {| rate_limit := rate_limit; tokens := rate_limit; last_update := now |}.

Definition acquire (now : Q) : State self bool :=
  new_tokens <- gets (fun s => (now - last_update s) * rate_limit s) ;;
  modify (fun s => set_tokens (Qmin (rate_limit s) (tokens s + new_tokens)) s) ;;
  modify (set_last_update now) ;;
  enough <- gets (fun s => geb (tokens s) 1) ;;
  if enough then
    modify (fun s => set_tokens (tokens s - 1) s) ;;
    ret true
  else ret false.

End TokenBucket.

(** ** [class RPMBucket] *)

Module RPMBucket.

Record self : Type := Self {
  RPM : Q;             (* request per minute *)
  rate_limit : Q;
  current_request : Q;
  last_update : Q
}.

(** The bucket together with the standard output stream; a printed line is
    recorded by the budget value it interpolates. *)
Record world : Type := World {
  bucket : self;
  stdout : list Q
}.

Definition set_current_request (v : Q) (w : world) : world :=
  {| bucket := {| RPM := RPM (bucket w); rate_limit := rate_limit (bucket w);
                  current_request := v; last_update := last_update (bucket w) |};
     stdout := stdout w |}.

Definition set_last_update (v : Q) (w : world) : world :=
  {| bucket := {| RPM := RPM (bucket w); rate_limit := rate_limit (bucket w);
                  current_request := current_request (bucket w); last_update := v |};
     stdout := stdout w |}.

Definition print (v : Q) : State world unit :=
  modify (fun w => {| bucket := bucket w; stdout := stdout w ++ [v] |}).

Definition __init__ (rate_limit : Q) (now : Q) : self :=
  {| RPM := rate_limit * 60; rate_limit := rate_limit;
     current_request := rate_limit * 60; last_update := now |}.

Definition acquire (now : Q) : State world bool :=
  new_request <- gets (fun w => (now - last_update (bucket w)) * rate_limit (bucket w)) ;;
  modify (fun w => set_current_request
                     (Qmin (RPM (bucket w)) (current_request (bucket w) + new_request)) w) ;;
  modify (set_last_update now) ;;
  enough <- gets (fun w => geb (current_request (bucket w)) 1) ;;
  if enough then
    modify (fun w => set_current_request (current_request (bucket w) - 1) w) ;;
    ret true
  else
    budget <- gets (fun w => current_request (bucket w)) ;;
    print budget ;;
    ret false.

End RPMBucket.

(** ** [class CallBucket] *)

(** [int(x)] on a Python number: truncation towards zero. *)
Definition int (x : Q) : Z := Z.quot (Qnum x) (Zpos (Qden x)).

(** [a / b], which raises [ZeroDivisionError] ([None]) when [b] is zero. *)
Definition truediv (a b : Q) : option Q :=
  if Qeq_bool b 0 then None else Some (a / b).

Module CallBucket.

Record self : Type := Self {
  calls_per_minute : Q;
  max_calls : Q;
  calls : Q;
  last_update : Q
}.

Definition set_calls (v : Q) (s : self) : self :=
  {| calls_per_minute := calls_per_minute s; max_calls := max_calls s;
     calls := v; last_update := last_update s |}.

Definition set_last_update (v : Q) (s : self) : self :=
  {| calls_per_minute := calls_per_minute s; max_calls := max_calls s;
     calls := calls s; last_update := v |}.

Definition __init__ (calls_per_minute : Q) (now : Q) : self :=
  {| calls_per_minute := calls_per_minute; max_calls := calls_per_minute;
     calls := calls_per_minute;  (* Start with full bucket *)
     last_update := now |}.

Definition acquire (now : Q) : State self bool :=
  (* Calculate minutes elapsed since last update *)
  minutes_elapsed <- gets (fun s => (now - last_update s) / 60) ;;
  (* Add new calls based on time elapsed (calls per minute) *)
  new_calls <- gets (fun s => minutes_elapsed * calls_per_minute s) ;;
  modify (fun s => set_calls (Qmin (max_calls s) (calls s + new_calls)) s) ;;
  modify (set_last_update now) ;;
  enough <- gets (fun s => geb (calls s) 1) ;;
  if enough then
    modify (fun s => set_calls (calls s - 1) s) ;;
    ret true
  else ret false.

(** Get the number of remaining calls available *)
Definition get_remaining_calls (now : Q) : State self Z :=
  minutes_elapsed <- gets (fun s => (now - last_update s) / 60) ;;
  new_calls <- gets (fun s => minutes_elapsed * calls_per_minute s) ;;
  current_calls <- gets (fun s => Qmin (max_calls s) (calls s + new_calls)) ;;
  ret (int current_calls).

(** Get time in seconds until next call is available; [None] stands for
    the [ZeroDivisionError] of the last division. *)
Definition get_time_to_next_call (now : Q) : State self (option Q) :=
  stored <- gets (fun s => geb (calls s) 1) ;;
  if stored then ret (Some 0)
  else
    minutes_elapsed <- gets (fun s => (now - last_update s) / 60) ;;
    new_calls <- gets (fun s => minutes_elapsed * calls_per_minute s) ;;
    current_calls <- gets (fun s => Qmin (max_calls s) (calls s + new_calls)) ;;
    if geb current_calls 1 then ret (Some 0)
    else
      (* Calculate how many minutes we need to wait for 1 call *)
      let calls_needed := 1 - current_calls in
      minutes_needed <- gets (fun s => truediv calls_needed (calls_per_minute s)) ;;
      ret (option_map (fun m => m * 60) minutes_needed).

(** The methods a client can call, and what they return. *)
Inductive call : Type := Acquire | GetRemainingCalls | GetTimeToNextCall.

Inductive answer : Type :=
| Granted (b : bool)
| Remaining (n : Z)
| Wait (t : option Q).

End CallBucket.

(** ** Histories of calls *)

(** The states a bucket goes through when the calls of [l] are made in order:
    one state after each call. *)
Fixpoint states {S A B : Type} (f : A -> State S B) (l : list A) (s : S) : list S :=
  match l with
  | [] => []
  | a :: l' => let s' := snd (f a s) in s' :: states f l' s'
  end.

(** The values returned by the calls of [l] made in order. *)
Fixpoint mapM {S A B : Type} (f : A -> State S B) (l : list A) : State S (list B) :=
  match l with
  | [] => ret []
  | a :: l' => b <- f a ;; bs <- mapM f l' ;; ret (b :: bs)
  end.

(** The clock never runs backwards: starting at [t], the readings [ts] of
    [time.time()] are taken in order. *)
Fixpoint nondecreasing (t : Q) (ts : list Q) : bool :=
  match ts with
  | [] => true
  | t' :: ts' => Qle_bool t t' && nondecreasing t' ts'
  end.

Module CallBucketHistory.
Import CallBucket.

(** One call of a method at clock reading [fst c]. *)
Definition perform (c : Q * call) : State self answer :=
  match snd c with
  | Acquire => b <- acquire (fst c) ;; ret (Granted b)
  | GetRemainingCalls => n <- get_remaining_calls (fst c) ;; ret (Remaining n)
  | GetTimeToNextCall => t <- get_time_to_next_call (fst c) ;; ret (Wait t)
  end.

Definition is_acquire (c : Q * call) : bool :=
  match snd c with Acquire => true | _ => false end.

(** The answers that come from [acquire]. *)
Definition is_granted (a : answer) : bool :=
  match a with Granted _ => true | _ => false end.

End CallBucketHistory.

Close Scope state_scope.

(** ** Python objects in a store *)

Abbreviation loc := positive.

Inductive val : Type :=
| VNone
| VBool (b : bool)
| VInt (n : Z)
| VStr (s : string)
| VRef (l : loc).

Inductive obj : Type :=
| ODict (d : gmap string val)
| OList (xs : list val).

Abbreviation heap := (gmap loc obj).

(** A computation on the store; [None] when an exception is raised. *)
Definition Py (A : Type) : Type := heap -> option (A * heap).

Module Py.

Definition ret {A : Type} (a : A) : Py A := fun h => Some (a, h).

Definition bind {A B : Type} (m : Py A) (k : A -> Py B) : Py B :=
  fun h => match m h with
           | Some (a, h') => k a h'
           | None => None
           end.

(** A dict display or list display: a new object at an unused location. *)
Definition alloc (o : obj) : Py val :=
  fun h => let l := fresh (dom h) in Some (VRef l, <[l := o]> h).

(** [v[k]] *)
Definition getitem (v : val) (k : string) : Py val :=
  fun h => match v with
           | VRef l =>
               match h !! l with
               | Some (ODict d) =>
                   match d !! k with
                   | Some x => Some (x, h)
                   | None => None           (* KeyError *)
                   end
               | _ => None
               end
           | _ => None
           end.

(** [v.get(k, default)] *)
Definition get (v : val) (k : string) (dflt : val) : Py val :=
  fun h => match v with
           | VRef l =>
               match h !! l with
               | Some (ODict d) => Some (default dflt (d !! k), h)
               | _ => None                  (* AttributeError *)
               end
           | _ => None
           end.

(** [v[k] = x] *)
Definition setitem (v : val) (k : string) (x : val) : Py unit :=
  fun h => match v with
           | VRef l =>
               match h !! l with
               | Some (ODict d) => Some (tt, <[l := ODict (<[k := x]> d)]> h)
               | _ => None
               end
           | _ => None
           end.

(** [bool(v)] *)
Definition truth (v : val) : Py bool :=
  fun h => match v with
           | VNone => Some (false, h)
           | VBool b => Some (b, h)
           | VInt n => Some (negb (Z.eqb n 0), h)
           | VStr s => Some (negb (String.eqb s ""), h)
           | VRef l =>
               match h !! l with
               | Some (ODict d) => Some (negb (bool_decide (d = ∅)), h)
               | Some (OList xs) => Some (negb (bool_decide (xs = [])), h)
               | None => None
               end
           end.

End Py.

Declare Scope py_scope.
Delimit Scope py_scope with py.
Notation "x <- c ;; k" := (Py.bind c (fun x => k))
  (at level 20, c at level 99, k at level 200, only parsing) : py_scope.
Notation "c ;; k" := (Py.bind c (fun _ => k))
  (at level 100, k at level 200, only parsing) : py_scope.
Open Scope py_scope.

(** ** [mcp.Tool] and [mcp2openai] *)

Record Tool : Type := {
  name : string;
  description : val;     (* a string or [None] *)
  inputSchema : loc      (* the dict object held by the attribute *)
}.

(** Convert a MCP Tool to an OpenAI ChatCompletionTool. *)
Definition mcp2openai (mcp_tool : Tool) : Py val :=
  function <- Py.alloc (ODict (<["name" := VStr (name mcp_tool)]>
                              (<["description" := description mcp_tool]>
                              (<["parameters" := VRef (inputSchema mcp_tool)]>
                              (<["strict" := VBool false]> ∅))))) ;;
  openai_format <- Py.alloc (ODict (<["type" := VStr "function"]>
                                   (<["function" := function]> ∅))) ;;
  f <- Py.getitem openai_format "function" ;;
  parameters <- Py.getitem f "parameters" ;;
  required <- Py.get parameters "required" VNone ;;
  present <- Py.truth required ;;
  (if negb present then
     empty <- Py.alloc (OList []) ;;
     f <- Py.getitem openai_format "function" ;;
     parameters <- Py.getitem f "parameters" ;;
     Py.setitem parameters "required" empty
   else Py.ret tt) ;;
  Py.ret openai_format.

Close Scope py_scope.

(** [result["function"]["parameters"]["required"]], read in the store. *)
Definition required_of (result : val) : Py val :=
  Py.bind (Py.getitem result "function") (fun f =>
  Py.bind (Py.getitem f "parameters") (fun parameters =>
  Py.getitem parameters "required")).

(** The two dictionaries [mcp2openai] builds, for a function dict at [fn]. *)
Definition function_dict (mcp_tool : Tool) : gmap string val :=
  <["name" := VStr (name mcp_tool)]>
    (<["description" := description mcp_tool]>
    (<["parameters" := VRef (inputSchema mcp_tool)]>
    (<["strict" := VBool false]> ∅))).

Definition format_dict (fn : loc) : gmap string val :=
  <["type" := VStr "function"]> (<["function" := VRef fn]> ∅).

(** A store holding one schema without [required] at location 5, and a tool
    over it; and a store whose schema has [required = ["city"]]. *)
Definition schema_plain : gmap string val := <["type" := VStr "object"]> ∅.

Definition store_plain : heap := <[5%positive := ODict schema_plain]> ∅.

Definition schema_normal : gmap string val :=
  <["type" := VStr "object"]> (<["required" := VRef 4%positive]> ∅).

Definition store_normal : heap :=
  <[5%positive := ODict schema_normal]> (<[4%positive := OList [VStr "city"]]> ∅).

Definition tool_x : Tool :=
  {| name := "x"; description := VStr "d"; inputSchema := 5%positive |}.

(** ** Vocabulary of the statements *)

(** For each bucket, [refilled now s] is the budget the bucket holds at clock
    reading [now] once the elapsed time is credited, and [inv rate t s] says
    that [s] is a well-formed bucket of rate [rate] last updated no later
    than [t]. *)

Module TokenBucketSpec.
Import TokenBucket.

(** The token count [acquire] stores before it tests it. *)
Definition refilled (now : Q) (s : self) : Q :=
  Qmin (rate_limit s) (tokens s + (now - last_update s) * rate_limit s).

Definition inv (rate : Q) (t : Q) (s : self) : Prop :=
  rate_limit s = rate /\ last_update s <= t /\ 0 <= tokens s <= rate.

End TokenBucketSpec.

Module RPMBucketSpec.
Import RPMBucket.

(** The budget [acquire] stores before it tests it. *)
Definition refilled (now : Q) (b : self) : Q :=
  Qmin (RPM b) (current_request b + (now - last_update b) * rate_limit b).

Definition inv (rate : Q) (t : Q) (w : world) : Prop :=
  rate_limit (bucket w) = rate /\ RPM (bucket w) = rate * 60 /\
  last_update (bucket w) <= t /\
  0 <= current_request (bucket w) <= rate * 60.

End RPMBucketSpec.

Module CallBucketSpec.
Import CallBucket.

(** The budget at clock reading [now], counting the calls that came back
    since [last_update]. *)
Definition refilled (now : Q) (s : self) : Q :=
  Qmin (max_calls s) (calls s + (now - last_update s) / 60 * calls_per_minute s).

Definition inv (cpm : Q) (t : Q) (s : self) : Prop :=
  calls_per_minute s = cpm /\ max_calls s = cpm /\
  last_update s <= t /\ 0 <= calls s <= cpm.

End CallBucketSpec.

(** ** Vocabulary of the further properties *)

(** The number of calls admitted among the answers of [acquire]. *)
Fixpoint granted (bs : list bool) : Q :=
  match bs with
  | [] => 0
  | b :: bs' => (if b then 1 else 0) + granted bs'
  end.


(** A [CallBucket] of capacity [cpm] holding no more than its capacity. *)
Definition starved (cpm : Q) (s : CallBucket.self) : Prop :=
  CallBucket.calls_per_minute s = cpm /\ CallBucket.max_calls s = cpm /\
  CallBucket.calls s <= cpm.


(** * Properties of the rate limiters *)

Open Scope state_scope.

Lemma geb_true (a b : Q) : geb a b = true <-> b <= a.
Proof. unfold geb. apply Qle_bool_iff. Qed.

Lemma geb_false (a b : Q) : geb a b = false <-> a < b.
Proof.
  unfold geb. split.
  - intros H. destruct (Qlt_le_dec a b) as [Hlt | Hle]; [exact Hlt |].
    apply Qle_bool_iff in Hle. congruence.
  - intros Hlt. destruct (Qle_bool b a) eqn:E; [| reflexivity].
    apply Qle_bool_iff in E. lra.
Qed.

Lemma refill_nonneg (elapsed rate : Q) : 0 <= elapsed -> 0 <= rate -> 0 <= elapsed * rate.
Proof. apply Qmult_le_0_compat. Qed.

Lemma Qmin_bounds (cap x : Q) : 0 <= cap -> 0 <= x -> 0 <= Qmin cap x <= cap.
Proof.
  intros Hcap Hx. split.
  - apply Q.min_glb; assumption.
  - apply Q.le_min_l.
Qed.

(** An invariant indexed by the clock is kept along every history whose clock
    readings do not decrease. *)
Lemma states_invariant {S A B : Type} (f : A -> State S B) (time : A -> Q)
    (I : Q -> S -> Prop) :
  (forall t a s, I t s -> t <= time a -> I (time a) (snd (f a s))) ->
  forall l t s, I t s -> nondecreasing t (map time l) = true ->
    Forall (fun s' => exists t', I t' s') (states f l s).
Proof.
  intros Hstep l. induction l as [| a l IH]; intros t s HI Hclock; simpl.
  - constructor.
  - simpl in Hclock. apply andb_true_iff in Hclock as [Hle Hrest].
    apply Qle_bool_iff in Hle.
    assert (HI' : I (time a) (snd (f a s))) by (apply (Hstep t); assumption).
    constructor.
    + exists (time a). exact HI'.
    + apply (IH (time a)); assumption.
Qed.

Module TokenBucketFacts.
Import TokenBucket TokenBucketSpec.

Lemma tb_acquire_eq (now : Q) (s : self) :
  acquire now s =
    if geb (refilled now s) 1
    then (true, {| rate_limit := rate_limit s; tokens := refilled now s - 1;
                   last_update := now |})
    else (false, {| rate_limit := rate_limit s; tokens := refilled now s;
                    last_update := now |}).
Proof.
  unfold acquire, bind, gets, modify, ret, refilled; simpl.
  destruct (geb _ 1); reflexivity.
Qed.

Lemma tb_init_inv (rate t0 : Q) : 0 < rate -> inv rate t0 (__init__ rate t0).
Proof. intros Hr. unfold inv, __init__; simpl. repeat split; lra. Qed.

Lemma tb_acquire_inv (rate t now : Q) (s : self) :
  0 < rate -> inv rate t s -> t <= now -> inv rate now (snd (acquire now s)).
Proof.
  intros Hr (Hrate & Hlast & Hlo & Hhi) Hnow.
  assert (Hnew : 0 <= (now - last_update s) * rate_limit s).
  { apply refill_nonneg; rewrite ?Hrate; lra. }
  assert (Hb : 0 <= refilled now s <= rate).
  { unfold refilled. rewrite Hrate in *. apply Qmin_bounds; lra. }
  rewrite tb_acquire_eq. destruct (geb (refilled now s) 1) eqn:E; simpl.
  - apply geb_true in E. unfold inv; simpl. repeat split; try assumption; lra.
  - unfold inv; simpl. repeat split; try assumption; lra.
Qed.

End TokenBucketFacts.

Module RPMBucketFacts.
Import RPMBucket RPMBucketSpec.

Lemma rpm_acquire_eq (now : Q) (w : world) :
  acquire now w =
    if geb (refilled now (bucket w)) 1
    then (true,
          {| bucket := {| RPM := RPM (bucket w); rate_limit := rate_limit (bucket w);
                          current_request := refilled now (bucket w) - 1;
                          last_update := now |};
             stdout := stdout w |})
    else (false,
          {| bucket := {| RPM := RPM (bucket w); rate_limit := rate_limit (bucket w);
                          current_request := refilled now (bucket w);
                          last_update := now |};
             stdout := stdout w ++ [refilled now (bucket w)] |}).
Proof.
  unfold acquire, print, bind, gets, modify, ret, refilled; simpl.
  destruct (geb _ 1); reflexivity.
Qed.

Lemma rpm_init_inv (rate t0 : Q) (out : list Q) :
  0 < rate -> inv rate t0 {| bucket := __init__ rate t0; stdout := out |}.
Proof. intros Hr. unfold inv, __init__; simpl. repeat split; lra. Qed.

Lemma rpm_acquire_inv (rate t now : Q) (w : world) :
  0 < rate -> inv rate t w -> t <= now -> inv rate now (snd (acquire now w)).
Proof.
  intros Hr (Hrate & Hcap & Hlast & Hlo & Hhi) Hnow.
  assert (Hnew : 0 <= (now - last_update (bucket w)) * rate_limit (bucket w)).
  { apply refill_nonneg; rewrite ?Hrate; lra. }
  assert (Hb : 0 <= refilled now (bucket w) <= rate * 60).
  { unfold refilled. rewrite Hcap. apply Qmin_bounds; lra. }
  rewrite rpm_acquire_eq. destruct (geb (refilled now (bucket w)) 1) eqn:E; simpl.
  - apply geb_true in E. unfold inv; simpl. repeat split; try assumption; lra.
  - unfold inv; simpl. repeat split; try assumption; lra.
Qed.

End RPMBucketFacts.

Module CallBucketFacts.
Import CallBucket CallBucketHistory CallBucketSpec.

Lemma cb_acquire_eq (now : Q) (s : self) :
  acquire now s =
    if geb (refilled now s) 1
    then (true, {| calls_per_minute := calls_per_minute s; max_calls := max_calls s;
                   calls := refilled now s - 1; last_update := now |})
    else (false, {| calls_per_minute := calls_per_minute s; max_calls := max_calls s;
                    calls := refilled now s; last_update := now |}).
Proof.
  unfold acquire, bind, gets, modify, ret, refilled; simpl.
  destruct (geb _ 1); reflexivity.
Qed.

Lemma get_remaining_calls_eq (now : Q) (s : self) :
  get_remaining_calls now s = (int (refilled now s), s).
Proof. reflexivity. Qed.

Lemma get_time_to_next_call_eq (now : Q) (s : self) :
  get_time_to_next_call now s =
    (if geb (calls s) 1 then Some 0
     else if geb (refilled now s) 1 then Some 0
     else option_map (fun m => m * 60)
                     (truediv (1 - refilled now s) (calls_per_minute s)),
     s).
Proof.
  unfold get_time_to_next_call, bind, gets, modify, ret, refilled; simpl.
  destruct (geb (calls s) 1); [reflexivity |].
  destruct (geb _ 1); reflexivity.
Qed.

Lemma cb_init_inv (cpm t0 : Q) : 0 < cpm -> inv cpm t0 (__init__ cpm t0).
Proof. intros Hr. unfold inv, __init__; simpl. repeat split; lra. Qed.

Lemma elapsed_nonneg (now last cpm : Q) :
  last <= now -> 0 <= cpm -> 0 <= (now - last) / 60 * cpm.
Proof.
  intros Hle Hc. apply refill_nonneg; [| exact Hc].
  apply Qle_shift_div_l; lra.
Qed.

Lemma cb_acquire_inv (cpm t now : Q) (s : self) :
  0 < cpm -> inv cpm t s -> t <= now -> inv cpm now (snd (acquire now s)).
Proof.
  intros Hr (Hrate & Hcap & Hlast & Hlo & Hhi) Hnow.
  assert (Hnew : 0 <= (now - last_update s) / 60 * calls_per_minute s).
  { apply elapsed_nonneg; rewrite ?Hrate; lra. }
  assert (Hb : 0 <= refilled now s <= cpm).
  { unfold refilled. rewrite Hcap. apply Qmin_bounds; lra. }
  rewrite cb_acquire_eq. destruct (geb (refilled now s) 1) eqn:E; simpl.
  - apply geb_true in E. unfold inv; simpl. repeat split; try assumption; lra.
  - unfold inv; simpl. repeat split; try assumption; lra.
Qed.

(** The two queries return the bucket they were given. *)
Lemma perform_query (c : Q * call) (s : self) :
  is_acquire c = false -> snd (perform c s) = s.
Proof.
  destruct c as [now []]; unfold is_acquire; cbn [snd fst]; intros H;
    try discriminate; unfold perform, bind; cbn [snd fst].
  - rewrite get_remaining_calls_eq. reflexivity.
  - rewrite get_time_to_next_call_eq. reflexivity.
Qed.

Lemma perform_acquire (now : Q) (s : self) :
  perform (now, Acquire) s = (Granted (fst (acquire now s)), snd (acquire now s)).
Proof.
  unfold perform, bind; simpl. destruct (acquire now s); reflexivity.
Qed.

Lemma perform_granted (c : Q * call) (s : self) :
  is_granted (fst (perform c s)) = is_acquire c.
Proof.
  destruct c as [now []]; unfold perform, bind, is_acquire; cbn [fst snd].
  - destruct (acquire now s); reflexivity.
  - destruct (get_remaining_calls now s); reflexivity.
  - destruct (get_time_to_next_call now s); reflexivity.
Qed.

Lemma perform_inv (cpm t : Q) (c : Q * call) (s : self) :
  0 < cpm -> inv cpm t s -> t <= fst c -> inv cpm (fst c) (snd (perform c s)).
Proof.
  intros Hr Hinv Hnow. destruct (is_acquire c) eqn:E.
  - destruct c as [now []]; try discriminate.
    rewrite perform_acquire. simpl. apply (cb_acquire_inv cpm t); assumption.
  - rewrite perform_query by exact E.
    destruct Hinv as (H1 & H2 & H3 & H4). unfold inv. repeat split; try tauto.
    apply Qle_trans with t; assumption.
Qed.

End CallBucketFacts.

(** ** Capacity bound *)

(** C1. For each of the three limiters built with a positive rate, and every
    history of calls whose clock readings never decrease (so every elapsed
    time is non-negative), the stored budget lies between 0 and the capacity
    in the initial state and after every call: [tokens] within
    [0, rate_limit], [current_request] within [0, rate_limit * 60], [calls]
    within [0, calls_per_minute]. *)
Theorem capacity_bound (rate t0 : Q) (ts : list Q)
    (cs : list (Q * CallBucket.call)) (out : list Q) :
  0 < rate ->
  nondecreasing t0 ts = true ->
  nondecreasing t0 (map fst cs) = true ->
  let tb := TokenBucket.__init__ rate t0 in
  let rb := RPMBucket.World (RPMBucket.__init__ rate t0) out in
  let cb := CallBucket.__init__ rate t0 in
  Forall (fun s => 0 <= TokenBucket.tokens s <= rate)
         (tb :: states TokenBucket.acquire ts tb) /\
  Forall (fun w => 0 <= RPMBucket.current_request (RPMBucket.bucket w) <= rate * 60)
         (rb :: states RPMBucket.acquire ts rb) /\
  Forall (fun s => 0 <= CallBucket.calls s <= rate)
         (cb :: states CallBucketHistory.perform cs cb).
Proof.
  intros Hr Hts Hcs tb rb cb. rewrite <- (map_id ts) in Hts.
  split; [| split].
  - pose proof (TokenBucketFacts.tb_init_inv rate t0 Hr) as H0.
    constructor; [apply H0 |].
    eapply Forall_impl;
      [ apply (states_invariant TokenBucket.acquire (fun t => t)
                 (TokenBucketSpec.inv rate)) with (t := t0);
        [ intros t a s HI Hle; apply (TokenBucketFacts.tb_acquire_inv rate t)
        | | ]; eassumption
      | intros s (t & HI); apply HI ].
  - pose proof (RPMBucketFacts.rpm_init_inv rate t0 out Hr) as H0.
    constructor; [apply H0 |].
    eapply Forall_impl;
      [ apply (states_invariant RPMBucket.acquire (fun t => t)
                 (RPMBucketSpec.inv rate)) with (t := t0);
        [ intros t a s HI Hle; apply (RPMBucketFacts.rpm_acquire_inv rate t)
        | | ]; eassumption
      | intros s (t & HI); apply HI ].
  - pose proof (CallBucketFacts.cb_init_inv rate t0 Hr) as H0.
    constructor; [apply H0 |].
    eapply Forall_impl;
      [ apply (states_invariant CallBucketHistory.perform fst
                 (CallBucketSpec.inv rate)) with (t := t0);
        [ intros t a s HI Hle; apply (CallBucketFacts.perform_inv rate t)
        | | ]; eassumption
      | intros s (t & HI); apply HI ].
Qed.

Lemma capacity_bound_witness :
  let ts := [0; 0; 0; 1 # 2; 40] in
  let cs := [(0, CallBucket.Acquire); (1 # 3, CallBucket.GetRemainingCalls);
             (1 # 3, CallBucket.Acquire); (5, CallBucket.GetTimeToNextCall);
             (90, CallBucket.Acquire)] in
  let tb := TokenBucket.__init__ 2 0 in
  let rb := RPMBucket.World (RPMBucket.__init__ 2 0) [] in
  let cb := CallBucket.__init__ 2 0 in
  0 < 2 /\ nondecreasing 0 ts = true /\ nondecreasing 0 (map fst cs) = true /\
  Forall (fun s => 0 <= TokenBucket.tokens s <= 2)
         (tb :: states TokenBucket.acquire ts tb) /\
  Forall (fun w => 0 <= RPMBucket.current_request (RPMBucket.bucket w) <= 2 * 60)
         (rb :: states RPMBucket.acquire ts rb) /\
  Forall (fun s => 0 <= CallBucket.calls s <= 2)
         (cb :: states CallBucketHistory.perform cs cb).
Proof.
  intros ts cs tb rb cb.
  split; [reflexivity |]. split; [reflexivity |]. split; [reflexivity |].
  apply (capacity_bound 2 0 ts cs []); reflexivity.
Defined.

(** ** Admission consistency *)

(** A denied [acquire] still commits the refill: in each of the three
    limiters, a bucket emptied at time 0 and asked again a quarter of a second
    later answers [false], yet its stored budget has grown and its
    [last_update] has moved. *)
Lemma denied_acquire_changes_bucket :
  (let s := snd (TokenBucket.acquire 0 (snd (TokenBucket.acquire 0
                  (TokenBucket.__init__ 2 0)))) in
   let r := TokenBucket.acquire (1 # 4) s in
   fst r = false /\ snd r <> s /\
   TokenBucket.tokens s == 0 /\ TokenBucket.tokens (snd r) == 1 # 2) /\
  (let w := snd (RPMBucket.acquire 0
                  (RPMBucket.World (RPMBucket.__init__ (1 # 60) 0) [])) in
   let r := RPMBucket.acquire 30 w in
   fst r = false /\ RPMBucket.bucket (snd r) <> RPMBucket.bucket w /\
   RPMBucket.current_request (RPMBucket.bucket w) == 0 /\
   RPMBucket.current_request (RPMBucket.bucket (snd r)) == 1 # 2) /\
  (let s := snd (CallBucket.acquire 0 (CallBucket.__init__ 1 0)) in
   let r := CallBucket.acquire 30 s in
   fst r = false /\ snd r <> s /\
   CallBucket.calls s == 0 /\ CallBucket.calls (snd r) == 1 # 2).
Proof.
  repeat split; try reflexivity; vm_compute; discriminate.
Qed.

(** C2 (amended). In each limiter, [acquire] first stores the refilled budget
    [min(capacity, budget + elapsed * rate)] and the clock reading.  It
    returns true exactly when that refilled budget is at least 1, and then the
    stored budget is the refilled budget minus one; when it returns false
    nothing is deducted and the stored budget is the refilled budget itself.
    The rate and the capacity are never written. *)
Theorem admission_consistency (now : Q)
    (tb : TokenBucket.self) (rb : RPMBucket.world) (cb : CallBucket.self) :
  (let r := TokenBucket.acquire now tb in
   let budget := TokenBucketSpec.refilled now tb in
   (fst r = true <-> 1 <= budget) /\
   TokenBucket.tokens (snd r) = (if fst r then budget - 1 else budget) /\
   TokenBucket.last_update (snd r) = now /\
   TokenBucket.rate_limit (snd r) = TokenBucket.rate_limit tb) /\
  (let r := RPMBucket.acquire now rb in
   let budget := RPMBucketSpec.refilled now (RPMBucket.bucket rb) in
   let b' := RPMBucket.bucket (snd r) in
   (fst r = true <-> 1 <= budget) /\
   RPMBucket.current_request b' = (if fst r then budget - 1 else budget) /\
   RPMBucket.last_update b' = now /\
   RPMBucket.rate_limit b' = RPMBucket.rate_limit (RPMBucket.bucket rb) /\
   RPMBucket.RPM b' = RPMBucket.RPM (RPMBucket.bucket rb)) /\
  (let r := CallBucket.acquire now cb in
   let budget := CallBucketSpec.refilled now cb in
   (fst r = true <-> 1 <= budget) /\
   CallBucket.calls (snd r) = (if fst r then budget - 1 else budget) /\
   CallBucket.last_update (snd r) = now /\
   CallBucket.calls_per_minute (snd r) = CallBucket.calls_per_minute cb /\
   CallBucket.max_calls (snd r) = CallBucket.max_calls cb).
Proof.
  split; [| split]; cbv zeta.
  - rewrite TokenBucketFacts.tb_acquire_eq.
    destruct (geb _ 1) eqn:E; simpl; repeat split; try reflexivity; try discriminate.
    + intros _. apply geb_true. exact E.
    + intros H. apply geb_false in E. lra.
  - rewrite RPMBucketFacts.rpm_acquire_eq.
    destruct (geb _ 1) eqn:E; simpl; repeat split; try reflexivity; try discriminate.
    + intros _. apply geb_true. exact E.
    + intros H. apply geb_false in E. lra.
  - rewrite CallBucketFacts.cb_acquire_eq.
    destruct (geb _ 1) eqn:E; simpl; repeat split; try reflexivity; try discriminate.
    + intros _. apply geb_true. exact E.
    + intros H. apply geb_false in E. lra.
Qed.

(** ** Worked examples *)

Lemma mapM_cons {S A B : Type} (f : A -> State S B) (a : A) (l : list A) (s : S) :
  mapM f (a :: l) s =
    (fst (f a s) :: fst (mapM f l (snd (f a s))), snd (mapM f l (snd (f a s)))).
Proof.
  simpl. unfold bind, ret. destruct (f a s) as [b s1]; simpl.
  destruct (mapM f l s1) as [bs s2]; reflexivity.
Qed.

Lemma geb_proper (a a' b : Q) : a == a' -> geb a b = geb a' b.
Proof.
  intros H. destruct (geb a' b) eqn:E.
  - apply geb_true in E. apply geb_true. rewrite H. exact E.
  - apply geb_false in E. apply geb_false. rewrite H. exact E.
Qed.

Module TokenBucketSteps.
Import TokenBucket TokenBucketSpec.

(** One [acquire] on a bucket known up to [==]: rate [rate], [v] tokens,
    last updated [e] seconds before [now]. *)
Lemma tb_acquire_step (now rate v e : Q) (s : self) :
  rate_limit s == rate -> tokens s == v -> now - last_update s == e ->
  let v' := Qmin rate (v + e * rate) in
  let r := acquire now s in
  fst r = geb v' 1 /\
  rate_limit (snd r) == rate /\
  tokens (snd r) == (if geb v' 1 then v' - 1 else v') /\
  last_update (snd r) = now.
Proof.
  intros Hrate Hv He v' r.
  assert (Hre : refilled now s == v').
  { unfold refilled, v'. rewrite Hrate, Hv, He. reflexivity. }
  subst r. rewrite TokenBucketFacts.tb_acquire_eq.
  rewrite (geb_proper _ _ 1 Hre).
  destruct (geb v' 1); simpl; repeat split; try assumption; try reflexivity.
  rewrite Hre. reflexivity.
Qed.

End TokenBucketSteps.

(** C4. A per-second bucket built with [rate_limit = 2] at any clock reading
    [t0] starts with 2 tokens; three calls of [acquire] at [t0] return true,
    true, false, and a fourth call half a second later returns true. *)
Theorem saturation_example (t0 : Q) :
  let s0 := TokenBucket.__init__ 2 t0 in
  TokenBucket.tokens s0 = 2 /\
  fst (mapM TokenBucket.acquire [t0; t0; t0; t0 + (1 # 2)] s0)
    = [true; true; false; true].
Proof.
  intros s0. split; [reflexivity |].
  destruct (TokenBucketSteps.tb_acquire_step t0 2 2 0 s0) as (R1 & K1 & V1 & L1);
    [reflexivity | reflexivity | simpl; lra |].
  set (s1 := snd (TokenBucket.acquire t0 s0)) in *.
  destruct (TokenBucketSteps.tb_acquire_step t0 2 1 0 s1) as (R2 & K2 & V2 & L2);
    [exact K1 | rewrite V1; reflexivity | rewrite L1; lra |].
  set (s2 := snd (TokenBucket.acquire t0 s1)) in *.
  destruct (TokenBucketSteps.tb_acquire_step t0 2 0 0 s2) as (R3 & K3 & V3 & L3);
    [exact K2 | rewrite V2; reflexivity | rewrite L2; lra |].
  set (s3 := snd (TokenBucket.acquire t0 s2)) in *.
  destruct (TokenBucketSteps.tb_acquire_step (t0 + (1 # 2)) 2 0 (1 # 2) s3)
    as (R4 & _); [exact K3 | rewrite V3; reflexivity | rewrite L3; lra |].
  rewrite !mapM_cons. fold s1. fold s2. fold s3.
  rewrite R1, R2, R3, R4. reflexivity.
Qed.

Module RPMBucketSteps.
Import RPMBucket RPMBucketSpec.

(** One [acquire] on a bucket known up to [==]. *)
Lemma rpm_acquire_step (now cap rate v e : Q) (w : world) :
  RPM (bucket w) == cap -> rate_limit (bucket w) == rate ->
  current_request (bucket w) == v -> now - last_update (bucket w) == e ->
  let v' := Qmin cap (v + e * rate) in
  let r := acquire now w in
  fst r = geb v' 1 /\
  RPM (bucket (snd r)) == cap /\
  rate_limit (bucket (snd r)) == rate /\
  current_request (bucket (snd r)) == (if geb v' 1 then v' - 1 else v') /\
  last_update (bucket (snd r)) = now.
Proof.
  intros Hcap Hrate Hv He v' r.
  assert (Hre : refilled now (bucket w) == v').
  { unfold refilled, v'. rewrite Hcap, Hrate, Hv, He. reflexivity. }
  subst r. rewrite RPMBucketFacts.rpm_acquire_eq.
  rewrite (geb_proper _ _ 1 Hre).
  destruct (geb v' 1); simpl; repeat split; try assumption; try reflexivity.
  rewrite Hre. reflexivity.
Qed.

(** With no time passing, a bucket holding at least [n] requests grants [n]
    calls in a row and is left with [n] requests fewer. *)
Lemma immediate_acquires (t0 cap rate : Q) (n : nat) :
  forall (v : Q) (w : world),
    RPM (bucket w) == cap -> rate_limit (bucket w) == rate ->
    current_request (bucket w) == v -> last_update (bucket w) == t0 ->
    inject_Z (Z.of_nat n) <= v -> v <= cap ->
    let r := mapM acquire (repeat t0 n) w in
    fst r = repeat true n /\
    RPM (bucket (snd r)) == cap /\
    rate_limit (bucket (snd r)) == rate /\
    current_request (bucket (snd r)) == v - inject_Z (Z.of_nat n) /\
    last_update (bucket (snd r)) == t0.
Proof.
  induction n as [| n IH]; intros v w Hcap Hrate Hv Hlast Hn Hle.
  - cbn [repeat mapM]. unfold ret; cbn [fst snd]. repeat split; try assumption.
    rewrite Hv. change (inject_Z (Z.of_nat 0)) with 0. lra.
  - assert (Hsucc : inject_Z (Z.of_nat (S n)) == inject_Z (Z.of_nat n) + 1).
    { rewrite Nat2Z.inj_succ. unfold Z.succ. rewrite inject_Z_plus. reflexivity. }
    assert (Hn0 : 0 <= inject_Z (Z.of_nat n)).
    { change 0 with (inject_Z 0). rewrite <- Zle_Qle. apply Nat2Z.is_nonneg. }
    rewrite Hsucc in Hn.
    destruct (rpm_acquire_step t0 cap rate v 0 w) as (R & C & K & V & L);
      try assumption; [rewrite Hlast; lra |].
    assert (Hmin : Qmin cap (v + 0 * rate) == v).
    { rewrite Q.min_r by lra. lra. }
    rewrite (geb_proper _ _ 1 Hmin) in R, V.
    assert (Hge : geb v 1 = true) by (apply geb_true; lra).
    rewrite Hge in R, V. rewrite Hmin in V.
    simpl repeat. cbv zeta. rewrite mapM_cons. simpl fst. simpl snd.
    destruct (IH (v - 1) (snd (acquire t0 w))) as (R' & C' & K' & V' & L');
      try assumption; try lra; [rewrite L; reflexivity |].
    rewrite R, R'. repeat split; try assumption.
    rewrite V', Hsucc. lra.
Qed.

End RPMBucketSteps.

(** C5. [RPMBucket(rate_limit=1)], built at any clock reading [t0], starts
    with a budget of 60; sixty calls of [acquire] at [t0] all return true and
    the sixty-first call at [t0] returns false. *)
Theorem per_minute_scaling_example (t0 : Q) (out : list Q) :
  let w0 := RPMBucket.World (RPMBucket.__init__ 1 t0) out in
  let r := mapM RPMBucket.acquire (repeat t0 60) w0 in
  RPMBucket.current_request (RPMBucket.bucket w0) = 60 /\
  fst r = repeat true 60 /\
  fst (RPMBucket.acquire t0 (snd r)) = false.
Proof.
  intros w0 r. split; [reflexivity |].
  destruct (RPMBucketSteps.immediate_acquires t0 60 1 60 60 w0)
    as (R & C & K & V & L);
    [reflexivity | reflexivity | reflexivity | reflexivity
    | vm_compute; discriminate | lra |].
  fold r in R, C, K, V, L. split; [exact R |].
  destruct (RPMBucketSteps.rpm_acquire_step t0 60 1 0 0 (snd r)) as (R' & _);
    [exact C | exact K | rewrite V; reflexivity | rewrite L; lra |].
  rewrite R'. reflexivity.
Qed.

(** ** Introspection of [CallBucket] *)

(** The bucket reached at the end of a history satisfies every clock-indexed
    invariant that each call keeps, at a reading no later than [now]. *)
Lemma mapM_invariant {S A B : Type} (f : A -> State S B) (time : A -> Q)
    (I : Q -> S -> Prop) (now : Q) :
  (forall t a s, I t s -> t <= time a -> I (time a) (snd (f a s))) ->
  forall l t s, I t s -> nondecreasing t (map time l ++ [now]) = true ->
    exists t', I t' (snd (mapM f l s)) /\ t' <= now.
Proof.
  intros Hstep l. induction l as [| a l IH]; intros t s HI Hclock.
  - simpl in Hclock. rewrite andb_true_r in Hclock. apply Qle_bool_iff in Hclock.
    exists t. split; assumption.
  - rewrite mapM_cons. cbn [snd]. simpl in Hclock.
    apply andb_true_iff in Hclock as [Hle Hrest]. apply Qle_bool_iff in Hle.
    apply (IH (time a)); [apply (Hstep t); assumption | exact Hrest].
Qed.

Module CallBucketQueries.
Import CallBucket CallBucketHistory CallBucketSpec.

(** On a well-formed bucket read no earlier than its last update, a stored
    budget of at least 1 is still at least 1 once refilled. *)
Lemma stored_le_refilled (cpm t now : Q) (s : self) :
  0 < cpm -> inv cpm t s -> t <= now -> 1 <= calls s -> 1 <= refilled now s.
Proof.
  intros Hr (Hrate & Hcap & Hlast & Hlo & Hhi) Hnow Hstored.
  assert (Hnew : 0 <= (now - last_update s) / 60 * calls_per_minute s).
  { apply CallBucketFacts.elapsed_nonneg; rewrite ?Hrate; lra. }
  unfold refilled. apply Q.min_glb; rewrite ?Hcap; lra.
Qed.

Lemma time_to_next_call_inv (cpm t now : Q) (s : self) :
  0 < cpm -> inv cpm t s -> t <= now ->
  fst (get_time_to_next_call now s) =
    if geb (refilled now s) 1 then Some 0
    else Some ((1 - refilled now s) / cpm * 60).
Proof.
  intros Hr Hinv Hnow. rewrite CallBucketFacts.get_time_to_next_call_eq. cbn [fst].
  destruct (geb (calls s) 1) eqn:Estored.
  - apply geb_true in Estored.
    pose proof (stored_le_refilled cpm t now s Hr Hinv Hnow Estored) as H.
    apply geb_true in H. rewrite H. reflexivity.
  - destruct (geb (refilled now s) 1); [reflexivity |].
    destruct Hinv as (Hrate & _). rewrite Hrate. unfold truediv.
    destruct (Qeq_bool cpm 0) eqn:Ez; [| reflexivity].
    apply Qeq_bool_iff in Ez. lra.
Qed.

End CallBucketQueries.

(** C7. On every bucket reached from [CallBucket(calls_per_minute)] with
    [calls_per_minute > 0] by a history of calls, queried at a clock reading
    [now] not earlier than the calls before it, [get_time_to_next_call]
    returns 0 when the budget refilled up to [now] is at least 1, and
    otherwise [(1 - current) / calls_per_minute * 60]. *)
Theorem time_to_next_call (cpm t0 now : Q) (cs : list (Q * CallBucket.call)) :
  0 < cpm ->
  nondecreasing t0 (map fst cs ++ [now]) = true ->
  let s := snd (mapM CallBucketHistory.perform cs (CallBucket.__init__ cpm t0)) in
  let current := CallBucketSpec.refilled now s in
  fst (CallBucket.get_time_to_next_call now s) =
    if geb current 1 then Some 0 else Some ((1 - current) / cpm * 60).
Proof.
  intros Hr Hclock s current.
  destruct (mapM_invariant CallBucketHistory.perform fst (CallBucketSpec.inv cpm) now)
    with (l := cs) (t := t0) (s := CallBucket.__init__ cpm t0) as (t' & HI & Hle).
  - intros t a s' HI Hle. apply (CallBucketFacts.perform_inv cpm t); assumption.
  - apply CallBucketFacts.cb_init_inv. exact Hr.
  - exact Hclock.
  - apply (CallBucketQueries.time_to_next_call_inv cpm t'); assumption.
Qed.

Lemma time_to_next_call_witness :
  let cs := [(0, CallBucket.Acquire); (0, CallBucket.Acquire);
             (1, CallBucket.GetRemainingCalls); (6, CallBucket.Acquire)] in
  0 < 2 /\ nondecreasing 0 (map fst cs ++ [12]) = true /\
  let s := snd (mapM CallBucketHistory.perform cs (CallBucket.__init__ 2 0)) in
  let current := CallBucketSpec.refilled 12 s in
  fst (CallBucket.get_time_to_next_call 12 s) =
    if geb current 1 then Some 0 else Some ((1 - current) / 2 * 60).
Proof.
  intros cs. split; [reflexivity |]. split; [reflexivity |].
  apply (time_to_next_call 2 0 12 cs); reflexivity.
Defined.

(** C8. [get_remaining_calls] and [get_time_to_next_call] return the bucket
    they were given, whatever the clock reads; hence in any history of calls,
    leaving the queries out changes neither the bucket reached nor the answer
    of any [acquire]. *)
Theorem introspection_read_only (s : CallBucket.self) :
  (forall now, snd (CallBucket.get_remaining_calls now s) = s /\
               snd (CallBucket.get_time_to_next_call now s) = s) /\
  (forall cs : list (Q * CallBucket.call),
     let r := mapM CallBucketHistory.perform cs s in
     let r' := mapM CallBucketHistory.perform
                 (List.filter CallBucketHistory.is_acquire cs) s in
     snd r = snd r' /\ List.filter CallBucketHistory.is_granted (fst r) = fst r').
Proof.
  split.
  - intros now. rewrite CallBucketFacts.get_remaining_calls_eq,
      CallBucketFacts.get_time_to_next_call_eq. split; reflexivity.
  - intros cs. revert s. induction cs as [| c cs IH]; intros s; cbv zeta.
    + split; reflexivity.
    + cbn [List.filter]. destruct (CallBucketHistory.is_acquire c) eqn:E.
      * rewrite !mapM_cons. cbn [fst snd List.filter].
        rewrite CallBucketFacts.perform_granted, E.
        destruct (IH (snd (CallBucketHistory.perform c s))) as [H1 H2].
        split; [exact H1 | rewrite H2; reflexivity].
      * rewrite mapM_cons. cbn [fst snd List.filter].
        rewrite CallBucketFacts.perform_granted, E.
        rewrite (CallBucketFacts.perform_query c s E).
        apply IH.
Qed.

(** ** A per-second bucket slower than one token per second *)

Module TokenBucketStarved.
Import TokenBucket TokenBucketSpec.

(** The refilled count never exceeds [rate_limit], whatever the clock. *)
Lemma refilled_le_rate (now : Q) (s : self) : refilled now s <= rate_limit s.
Proof. unfold refilled. apply Q.le_min_l. Qed.

Lemma acquire_denied (now : Q) (s : self) :
  rate_limit s < 1 ->
  fst (acquire now s) = false /\ rate_limit (snd (acquire now s)) = rate_limit s.
Proof.
  intros Hlt. rewrite TokenBucketFacts.tb_acquire_eq.
  pose proof (refilled_le_rate now s) as Hle.
  destruct (geb (refilled now s) 1) eqn:E; cbn [fst snd rate_limit].
  - apply geb_true in E. lra.
  - split; reflexivity.
Qed.

Lemma all_denied (ts : list Q) :
  forall s, rate_limit s < 1 ->
    fst (mapM acquire ts s) = repeat false (length ts).
Proof.
  induction ts as [| now ts IH]; intros s Hlt.
  - reflexivity.
  - rewrite mapM_cons. cbn [fst length repeat].
    destruct (acquire_denied now s Hlt) as [Hf Hr].
    rewrite Hf, IH; [reflexivity | rewrite Hr; exact Hlt].
Qed.

End TokenBucketStarved.

(** C10. A [TokenBucket] built with [0 < rate_limit < 1] answers false to
    every [acquire], at whatever clock readings the calls are made: its
    capacity is [rate_limit], so the refilled count stays below 1. *)
Theorem fractional_rate_never_admits (rate t0 : Q) (ts : list Q) :
  0 < rate -> rate < 1 ->
  fst (mapM TokenBucket.acquire ts (TokenBucket.__init__ rate t0))
    = repeat false (length ts).
Proof.
  intros _ Hlt. apply TokenBucketStarved.all_denied. exact Hlt.
Qed.

Lemma fractional_rate_never_admits_witness :
  0 < 1 # 2 /\ 1 # 2 < 1 /\
  fst (mapM TokenBucket.acquire [0; 3; 1000; 1000000] (TokenBucket.__init__ (1 # 2) 0))
    = repeat false 4.
Proof.
  split; [reflexivity |]. split; [reflexivity |].
  apply (fractional_rate_never_admits (1 # 2) 0 [0; 3; 1000; 1000000]); reflexivity.
Defined.

(** * Properties of [mcp2openai] *)

Module PyFacts.

Lemma fresh_unused (h : heap) : h !! fresh (dom h) = None.
Proof. apply not_elem_of_dom_1, is_fresh. Qed.

(** An object that exists keeps its location apart from a new one. *)
Lemma used_ne_fresh (h : heap) (l : loc) (o : obj) :
  h !! l = Some o -> fresh (dom h) <> l.
Proof. intros Hl Heq. rewrite <- Heq, fresh_unused in Hl. discriminate. Qed.

(** [bool(v)] is not changed by objects added to the store. *)
Lemma truth_weaken (v : val) (h h' : heap) (b : bool) :
  Py.truth v h = Some (b, h) -> h ⊆ h' -> Py.truth v h' = Some (b, h').
Proof.
  intros Ht Hsub. destruct v as [| c | n | s | l]; simpl in *;
    try (injection Ht as <-; reflexivity).
  destruct (h !! l) as [o |] eqn:El; [| discriminate].
  rewrite (lookup_weaken h h' l o El Hsub).
  destruct o; injection Ht as <-; reflexivity.
Qed.

End PyFacts.

Module Mcp2OpenaiFacts.
Import PyFacts.

(** The run of [mcp2openai] on a store where the tool's input schema is the
    dict [d] and [bool] of its [required] entry is [b]. *)
Lemma run (t : Tool) (h : heap) (d : gmap string val) (b : bool) :
  h !! inputSchema t = Some (ODict d) ->
  Py.truth (default VNone (d !! "required")) h = Some (b, h) ->
  let fn := fresh (dom h) in
  let h1 := <[fn := ODict (function_dict t)]> h in
  let o := fresh (dom h1) in
  let h2 := <[o := ODict (format_dict fn)]> h1 in
  let e := fresh (dom h2) in
  mcp2openai t h =
    Some (VRef o,
          if b then h2
          else <[inputSchema t := ODict (<["required" := VRef e]> d)]>
                 (<[e := OList []]> h2)).
Proof.
  intros Hs Ht fn h1 o h2 e.
  assert (Hfn : h !! fn = None) by apply fresh_unused.
  assert (Ho : h1 !! o = None) by apply fresh_unused.
  assert (He : h2 !! e = None) by apply fresh_unused.
  assert (Hsfn : fn <> inputSchema t) by (apply (used_ne_fresh h _ _ Hs)).
  assert (Hs1 : h1 !! inputSchema t = Some (ODict d)).
  { unfold h1. rewrite lookup_insert_ne by exact Hsfn. exact Hs. }
  assert (Hso : o <> inputSchema t) by (apply (used_ne_fresh h1 _ _ Hs1)).
  assert (Hs2 : h2 !! inputSchema t = Some (ODict d)).
  { unfold h2. rewrite lookup_insert_ne by exact Hso. exact Hs1. }
  assert (Hfn1 : h1 !! fn = Some (ODict (function_dict t))).
  { unfold h1. apply lookup_insert_eq. }
  assert (Hfo : o <> fn) by (apply (used_ne_fresh h1 _ _ Hfn1)).
  assert (Hfn2 : h2 !! fn = Some (ODict (function_dict t))).
  { unfold h2. rewrite lookup_insert_ne by exact Hfo. exact Hfn1. }
  assert (Ho2 : h2 !! o = Some (ODict (format_dict fn))).
  { unfold h2. apply lookup_insert_eq. }
  assert (Hsub : h ⊆ h2).
  { transitivity h1; apply insert_subseteq; assumption. }
  unfold mcp2openai, Py.bind, Py.alloc, Py.ret.
  fold fn. fold (function_dict t). fold h1. fold o. fold (format_dict fn). fold h2.
  unfold Py.getitem at 1. rewrite Ho2.
  change (format_dict fn !! "function") with (Some (VRef fn)).
  unfold Py.getitem at 1. rewrite Hfn2.
  change (function_dict t !! "parameters") with (Some (VRef (inputSchema t))).
  unfold Py.get. rewrite Hs2.
  rewrite (truth_weaken _ h h2 b Ht Hsub).
  destruct b; cbn [negb]; [reflexivity |].
  fold e.
  assert (Hoe : e <> o) by (apply (used_ne_fresh h2 _ _ Ho2)).
  assert (Hfe : e <> fn) by (apply (used_ne_fresh h2 _ _ Hfn2)).
  assert (Hse : e <> inputSchema t) by (apply (used_ne_fresh h2 _ _ Hs2)).
  unfold Py.getitem at 1. rewrite lookup_insert_ne by exact Hoe. rewrite Ho2.
  change (format_dict fn !! "function") with (Some (VRef fn)).
  unfold Py.getitem at 1. rewrite lookup_insert_ne by exact Hfe. rewrite Hfn2.
  change (function_dict t !! "parameters") with (Some (VRef (inputSchema t))).
  unfold Py.setitem. rewrite lookup_insert_ne by exact Hse. rewrite Hs2.
  reflexivity.
Qed.

End Mcp2OpenaiFacts.

(** ** The translated schema *)

(** C6. When the tool's input schema is a dict without a [required] key,
    [mcp2openai] returns a new dict [{type: "function", function: f}] where
    [f] is a new dict [{name, description, parameters, strict: False}] with
    the tool's name and description, and [parameters] is the input schema
    object, now holding every entry it had and [required] bound to a new
    empty list. *)
Theorem translation_without_required (t : Tool) (h : heap) (d : gmap string val) :
  h !! inputSchema t = Some (ODict d) ->
  d !! "required" = None ->
  exists (o fn e : loc) (h' : heap),
    mcp2openai t h = Some (VRef o, h') /\
    h !! o = None /\ h !! fn = None /\ h !! e = None /\
    h' !! o = Some (ODict (<["type" := VStr "function"]>
                          (<["function" := VRef fn]> ∅))) /\
    h' !! fn = Some (ODict (<["name" := VStr (name t)]>
                           (<["description" := description t]>
                           (<["parameters" := VRef (inputSchema t)]>
                           (<["strict" := VBool false]> ∅))))) /\
    h' !! inputSchema t = Some (ODict (<["required" := VRef e]> d)) /\
    h' !! e = Some (OList []).
Proof.
  intros Hs Hreq.
  pose proof (Mcp2OpenaiFacts.run t h d false Hs) as Hrun.
  rewrite Hreq in Hrun. specialize (Hrun eq_refl). cbv zeta in Hrun.
  set (fn := fresh (dom h)) in *.
  set (h1 := <[fn := ODict (function_dict t)]> h) in *.
  set (o := fresh (dom h1)) in *.
  set (h2 := <[o := ODict (format_dict fn)]> h1) in *.
  set (e := fresh (dom h2)) in *.
  assert (Hfn : h !! fn = None) by apply PyFacts.fresh_unused.
  assert (Ho : h1 !! o = None) by apply PyFacts.fresh_unused.
  assert (He : h2 !! e = None) by apply PyFacts.fresh_unused.
  unfold h1 in Ho. apply lookup_insert_None in Ho as [Ho Hfo].
  unfold h2, h1 in He. apply lookup_insert_None in He as [He Hoe].
  apply lookup_insert_None in He as [He Hfe].
  assert (Hso : inputSchema t <> o) by (intros E; rewrite E in Hs; congruence).
  assert (Hsf : inputSchema t <> fn) by (intros E; rewrite E in Hs; congruence).
  assert (Hse : inputSchema t <> e) by (intros E; rewrite E in Hs; congruence).
  exists o, fn, e. eexists. split; [exact Hrun |].
  repeat split; try assumption.
  - rewrite lookup_insert_ne by exact Hso. rewrite lookup_insert_ne by congruence.
    unfold h2. apply lookup_insert_eq.
  - rewrite lookup_insert_ne by exact Hsf. rewrite lookup_insert_ne by congruence.
    unfold h2. rewrite lookup_insert_ne by congruence. unfold h1. apply lookup_insert_eq.
  - apply lookup_insert_eq.
  - rewrite lookup_insert_ne by exact Hse. apply lookup_insert_eq.
Qed.

Lemma translation_without_required_witness :
  store_plain !! inputSchema tool_x = Some (ODict schema_plain) /\
  schema_plain !! "required" = None /\
  exists (o fn e : loc) (h' : heap),
    mcp2openai tool_x store_plain = Some (VRef o, h') /\
    store_plain !! o = None /\ store_plain !! fn = None /\ store_plain !! e = None /\
    h' !! o = Some (ODict (<["type" := VStr "function"]>
                          (<["function" := VRef fn]> ∅))) /\
    h' !! fn = Some (ODict (<["name" := VStr "x"]>
                           (<["description" := VStr "d"]>
                           (<["parameters" := VRef 5%positive]>
                           (<["strict" := VBool false]> ∅))))) /\
    h' !! 5%positive = Some (ODict (<["required" := VRef e]> schema_plain)) /\
    h' !! e = Some (OList []).
Proof.
  split; [reflexivity |]. split; [reflexivity |].
  apply (translation_without_required tool_x store_plain schema_plain); reflexivity.
Defined.

(** C9. When the tool's input schema already binds [required] to a non-empty
    list, [mcp2openai] leaves the schema object and the list as they were,
    and [required] read through the result's [parameters] is that same
    list. *)
Theorem translation_keeps_required (t : Tool) (h : heap) (d : gmap string val)
    (r : loc) (x : val) (xs : list val) :
  h !! inputSchema t = Some (ODict d) ->
  d !! "required" = Some (VRef r) ->
  h !! r = Some (OList (x :: xs)) ->
  exists (result : val) (h' : heap),
    mcp2openai t h = Some (result, h') /\
    h' !! inputSchema t = Some (ODict d) /\
    h' !! r = Some (OList (x :: xs)) /\
    required_of result h' = Some (VRef r, h').
Proof.
  intros Hs Hreq Hr.
  assert (Ht : Py.truth (default VNone (d !! "required")) h = Some (true, h)).
  { rewrite Hreq. unfold Py.truth. cbn [default from_option id]. rewrite Hr.
    reflexivity. }
  pose proof (Mcp2OpenaiFacts.run t h d true Hs Ht) as Hrun. cbv zeta in Hrun.
  set (fn := fresh (dom h)) in *.
  set (h1 := <[fn := ODict (function_dict t)]> h) in *.
  set (o := fresh (dom h1)) in *.
  set (h2 := <[o := ODict (format_dict fn)]> h1) in *.
  assert (Hfn : h !! fn = None) by apply PyFacts.fresh_unused.
  assert (Ho : h1 !! o = None) by apply PyFacts.fresh_unused.
  assert (Hsub : h ⊆ h2).
  { transitivity h1; apply insert_subseteq; assumption. }
  unfold h1 in Ho. apply lookup_insert_None in Ho as [Ho Hfo].
  assert (Hs2 : h2 !! inputSchema t = Some (ODict d))
    by exact (lookup_weaken _ _ _ _ Hs Hsub).
  exists (VRef o), h2. split; [exact Hrun |].
  split; [exact Hs2 |].
  split; [exact (lookup_weaken _ _ _ _ Hr Hsub) |].
  unfold required_of, Py.bind.
  unfold Py.getitem at 1. unfold h2 at 1. rewrite lookup_insert_eq.
  change (format_dict fn !! "function") with (Some (VRef fn)).
  unfold Py.getitem at 1. unfold h2 at 1. rewrite lookup_insert_ne by congruence.
  unfold h1 at 1. rewrite lookup_insert_eq.
  change (function_dict t !! "parameters") with (Some (VRef (inputSchema t))).
  unfold Py.getitem. rewrite Hs2, Hreq. reflexivity.
Qed.

Lemma translation_keeps_required_witness :
  store_normal !! inputSchema tool_x = Some (ODict schema_normal) /\
  schema_normal !! "required" = Some (VRef 4%positive) /\
  store_normal !! 4%positive = Some (OList [VStr "city"]) /\
  exists (result : val) (h' : heap),
    mcp2openai tool_x store_normal = Some (result, h') /\
    h' !! 5%positive = Some (ODict schema_normal) /\
    h' !! 4%positive = Some (OList [VStr "city"]) /\
    required_of result h' = Some (VRef 4%positive, h').
Proof.
  split; [reflexivity |]. split; [reflexivity |]. split; [reflexivity |].
  apply (translation_keeps_required tool_x store_normal schema_normal
           4%positive (VStr "city") []); reflexivity.
Defined.

(** ** Effects of the translation on the store *)

(** The translation of a tool whose schema has no [required] key writes that
    key into the tool's own schema object: the object at location 5 is not
    what it was before the call. *)
Lemma mcp2openai_writes_input_schema :
  exists (result : val) (h' : heap),
    mcp2openai tool_x store_plain = Some (result, h') /\
    store_plain !! inputSchema tool_x = Some (ODict schema_plain) /\
    h' !! inputSchema tool_x
      = Some (ODict (<["required" := VRef 8%positive]> schema_plain)) /\
    h' !! inputSchema tool_x <> store_plain !! inputSchema tool_x.
Proof.
  eexists _, _. split; [vm_compute; reflexivity |].
  split; [reflexivity |]. split; [vm_compute; reflexivity |].
  vm_compute. discriminate.
Qed.

(** C3 (amended). On a store where the tool's input schema is a dict [d],
    [mcp2openai] returns a result determined by the tool and the store, and
    writes no object that existed before the call other than the input
    schema.  When [required] is bound in [d] to a truthy value the input
    schema is left as it was; otherwise the input schema object itself, which
    the result shares as [parameters], gets [required] bound to a new empty
    list and keeps its other entries. *)
Theorem mcp2openai_frame (t : Tool) (h : heap) (d : gmap string val) (b : bool) :
  h !! inputSchema t = Some (ODict d) ->
  Py.truth (default VNone (d !! "required")) h = Some (b, h) ->
  exists (result : val) (h' : heap),
    mcp2openai t h = Some (result, h') /\
    (forall (l : loc) (o : obj),
       h !! l = Some o -> l <> inputSchema t -> h' !! l = Some o) /\
    (b = true -> h' !! inputSchema t = Some (ODict d)) /\
    (b = false ->
       exists e : loc,
         h !! e = None /\ h' !! e = Some (OList []) /\
         h' !! inputSchema t = Some (ODict (<["required" := VRef e]> d))).
Proof.
  intros Hs Ht.
  pose proof (Mcp2OpenaiFacts.run t h d b Hs Ht) as Hrun. cbv zeta in Hrun.
  set (fn := fresh (dom h)) in *.
  set (h1 := <[fn := ODict (function_dict t)]> h) in *.
  set (o := fresh (dom h1)) in *.
  set (h2 := <[o := ODict (format_dict fn)]> h1) in *.
  set (e := fresh (dom h2)) in *.
  assert (Hfn : h !! fn = None) by apply PyFacts.fresh_unused.
  assert (Ho : h1 !! o = None) by apply PyFacts.fresh_unused.
  assert (He : h2 !! e = None) by apply PyFacts.fresh_unused.
  assert (Hsub : h ⊆ h2).
  { transitivity h1; apply insert_subseteq; assumption. }
  assert (He0 : h !! e = None).
  { destruct (h !! e) as [x |] eqn:E; [| reflexivity].
    rewrite (lookup_weaken _ _ _ _ E Hsub) in He. discriminate. }
  eexists _, _. split; [exact Hrun |].
  split; [| split].
  - intros l x Hl Hne. pose proof (lookup_weaken _ _ _ _ Hl Hsub) as Hl2.
    destruct b; [exact Hl2 |].
    rewrite lookup_insert_ne by congruence.
    rewrite lookup_insert_ne by congruence. exact Hl2.
  - intros ->. exact (lookup_weaken _ _ _ _ Hs Hsub).
  - intros ->. exists e. split; [exact He0 |]. split.
    + rewrite lookup_insert_ne by congruence. apply lookup_insert_eq.
    + apply lookup_insert_eq.
Qed.

Lemma mcp2openai_frame_witness :
  store_normal !! inputSchema tool_x = Some (ODict schema_normal) /\
  Py.truth (default VNone (schema_normal !! "required")) store_normal
    = Some (true, store_normal) /\
  exists (result : val) (h' : heap),
    mcp2openai tool_x store_normal = Some (result, h') /\
    (forall (l : loc) (o : obj),
       store_normal !! l = Some o -> l <> inputSchema tool_x -> h' !! l = Some o) /\
    (true = true -> h' !! inputSchema tool_x = Some (ODict schema_normal)) /\
    (true = false ->
       exists e : loc,
         store_normal !! e = None /\ h' !! e = Some (OList []) /\
         h' !! inputSchema tool_x
           = Some (ODict (<["required" := VRef e]> schema_normal))).
Proof.
  split; [reflexivity |]. split; [reflexivity |].
  apply (mcp2openai_frame tool_x store_normal schema_normal true); reflexivity.
Defined.

(** * Further properties of the rate limiters *)

(** ** The admitted rate *)

Lemma last_cons_default {A : Type} (a d : A) (l : list A) :
  List.last (a :: l) d = List.last l a.
Proof.
  revert a d. induction l as [| b l IH]; intros a d; [reflexivity |].
  change (List.last (a :: b :: l) d) with (List.last (b :: l) d).
  rewrite (IH b d), (IH b a). reflexivity.
Qed.

Module TokenBucketRate.
Import TokenBucket TokenBucketSpec.

(** What one call takes out is what the refill put in, at most. *)
Lemma tb_acquire_account (now : Q) (s : self) :
  let r := acquire now s in
  (if fst r then 1 else 0) + tokens (snd r)
    <= tokens s + rate_limit s * (now - last_update s) /\
  last_update (snd r) = now.
Proof.
  cbv zeta. rewrite TokenBucketFacts.tb_acquire_eq.
  assert (H : refilled now s <= tokens s + (now - last_update s) * rate_limit s)
    by apply Q.le_min_r.
  destruct (geb (refilled now s) 1); cbn [fst snd tokens last_update];
    split; try reflexivity; lra.
Qed.

Lemma tb_grants_potential (rate : Q) (ts : list Q) :
  0 < rate ->
  forall (s : self) (t : Q),
    inv rate t s -> nondecreasing t ts = true ->
    let r := mapM acquire ts s in
    granted (fst r) + tokens (snd r)
      <= tokens s + rate * (last_update (snd r) - last_update s) /\
    inv rate (List.last ts t) (snd r).
Proof.
  intros Hr. induction ts as [| now ts IH]; intros s t Hinv Hclock; cbv zeta.
  - cbn [mapM]. unfold ret. cbn [fst snd granted List.last].
    split; [lra | exact Hinv].
  - cbn [nondecreasing] in Hclock. apply andb_true_iff in Hclock as [Hle Hrest].
    apply Qle_bool_iff in Hle.
    rewrite mapM_cons. cbn [fst snd granted]. rewrite last_cons_default.
    pose proof (TokenBucketFacts.tb_acquire_inv rate t now s Hr Hinv Hle) as Hinv1.
    destruct (tb_acquire_account now s) as [Hacc Hlast].
    destruct (IH (snd (acquire now s)) now Hinv1 Hrest) as [Hpot Hinv2].
    split; [| exact Hinv2].
    destruct Hinv as (Hrate & _). rewrite Hrate in Hacc. rewrite Hlast in Hpot.
    nra.
Qed.

End TokenBucketRate.



Module RPMBucketRate.
Import RPMBucket RPMBucketSpec.

Lemma rpm_acquire_account (now : Q) (w : world) :
  let r := acquire now w in
  (if fst r then 1 else 0) + current_request (bucket (snd r))
    <= current_request (bucket w)
       + rate_limit (bucket w) * (now - last_update (bucket w)) /\
  last_update (bucket (snd r)) = now.
Proof.
  cbv zeta. rewrite RPMBucketFacts.rpm_acquire_eq.
  assert (H : refilled now (bucket w)
              <= current_request (bucket w)
                 + (now - last_update (bucket w)) * rate_limit (bucket w))
    by apply Q.le_min_r.
  destruct (geb (refilled now (bucket w)) 1);
    cbn [fst snd bucket current_request last_update];
    split; try reflexivity; lra.
Qed.

Lemma rpm_grants_potential (rate : Q) (ts : list Q) :
  0 < rate ->
  forall (w : world) (t : Q),
    inv rate t w -> nondecreasing t ts = true ->
    let r := mapM acquire ts w in
    granted (fst r) + current_request (bucket (snd r))
      <= current_request (bucket w)
         + rate * (last_update (bucket (snd r)) - last_update (bucket w)) /\
    inv rate (List.last ts t) (snd r).
Proof.
  intros Hr. induction ts as [| now ts IH]; intros w t Hinv Hclock; cbv zeta.
  - cbn [mapM]. unfold ret. cbn [fst snd granted List.last].
    split; [lra | exact Hinv].
  - cbn [nondecreasing] in Hclock. apply andb_true_iff in Hclock as [Hle Hrest].
    apply Qle_bool_iff in Hle.
    rewrite mapM_cons. cbn [fst snd granted]. rewrite last_cons_default.
    pose proof (RPMBucketFacts.rpm_acquire_inv rate t now w Hr Hinv Hle) as Hinv1.
    destruct (rpm_acquire_account now w) as [Hacc Hlast].
    destruct (IH (snd (acquire now w)) now Hinv1 Hrest) as [Hpot Hinv2].
    split; [| exact Hinv2].
    destruct Hinv as (Hrate & _). rewrite Hrate in Hacc. rewrite Hlast in Hpot.
    nra.
Qed.

End RPMBucketRate.



Module CallBucketRate.
Import CallBucket CallBucketHistory CallBucketSpec.




End CallBucketRate.



(** ** Calls that are admitted *)

Module TokenBucketLive.
Import TokenBucket TokenBucketSpec.

Lemma tb_last_update (ts : list Q) :
  forall s : self,
    last_update (snd (mapM acquire ts s)) = List.last ts (last_update s).
Proof.
  induction ts as [| now ts IH]; intros s; [reflexivity |].
  rewrite mapM_cons, last_cons_default. cbn [snd]. rewrite IH.
  rewrite TokenBucketFacts.tb_acquire_eq.
  destruct (geb _ 1); reflexivity.
Qed.

(** A well-formed bucket of rate at least 1 admits a call made [1 / rate]
    seconds or more after its last update. *)
Lemma tb_admits_after_wait (rate t now : Q) (s : self) :
  1 <= rate -> inv rate t s -> last_update s + 1 / rate <= now ->
  fst (acquire now s) = true.
Proof.
  intros Hr (Hrate & _ & Hlo & _) Hwait.
  rewrite TokenBucketFacts.tb_acquire_eq.
  assert (Hone : 1 <= (now - last_update s) * rate).
  { assert (E : 1 == (1 / rate) * rate) by (field; lra).
    rewrite E. apply Qmult_le_compat_r; lra. }
  assert (Hge : 1 <= refilled now s).
  { unfold refilled. rewrite Hrate. apply Q.min_glb; lra. }
  apply geb_true in Hge. rewrite Hge. reflexivity.
Qed.

End TokenBucketLive.

(** X4. A [TokenBucket] with [rate_limit >= 1] admits every call made at
    least [1 / rate_limit] seconds after the call before it (or after the
    construction, for a first call), whatever the earlier calls were. *)
Theorem token_bucket_admits_after_wait (rate t0 now : Q) (ts : list Q) :
  1 <= rate ->
  nondecreasing t0 ts = true ->
  List.last ts t0 + 1 / rate <= now ->
  fst (TokenBucket.acquire now
         (snd (mapM TokenBucket.acquire ts (TokenBucket.__init__ rate t0)))) = true.
Proof.
  intros Hr Hclock Hwait.
  assert (Hpos : 0 < rate) by lra.
  destruct (TokenBucketRate.tb_grants_potential rate ts Hpos
              (TokenBucket.__init__ rate t0) t0
              (TokenBucketFacts.tb_init_inv rate t0 Hpos) Hclock) as [_ Hinv].
  apply (TokenBucketLive.tb_admits_after_wait rate (List.last ts t0)); try assumption.
  rewrite TokenBucketLive.tb_last_update. exact Hwait.
Qed.

Lemma token_bucket_admits_after_wait_witness :
  1 <= 2 /\ nondecreasing 0 [0; 0; 0; 1 # 4] = true /\
  List.last [0; 0; 0; 1 # 4] 0 + 1 / 2 <= 3 # 4 /\
  fst (TokenBucket.acquire (3 # 4)
         (snd (mapM TokenBucket.acquire [0; 0; 0; 1 # 4]
                 (TokenBucket.__init__ 2 0)))) = true.
Proof.
  split; [vm_compute; discriminate |]. split; [reflexivity |].
  split; [vm_compute; discriminate |].
  apply (token_bucket_admits_after_wait 2 0 (3 # 4) [0; 0; 0; 1 # 4]);
    [vm_compute; discriminate | reflexivity | vm_compute; discriminate].
Defined.

Module CallBucketWait.
Import CallBucket CallBucketHistory CallBucketSpec.



End CallBucketWait.



(** ** The remaining calls of a [CallBucket] *)

Lemma int_ge_1 (x : Q) : (1 <= int x)%Z <-> 1 <= x.
Proof.
  destruct x as [n d]. unfold int, Qle; cbn [Qnum Qden].
  rewrite Z.mul_1_l, Z.mul_1_r. split.
  - intros H. destruct (Z_lt_le_dec n (Zpos d)) as [Hlt | Hle]; [| exact Hle].
    exfalso. destruct (Z_lt_le_dec n 0) as [Hneg | Hnn].
    + assert (Hq : (Z.quot n (Zpos d) <= Z.quot 0 (Zpos d))%Z)
        by (apply Z.quot_le_mono; lia).
      rewrite Z.quot_0_l in Hq by lia. lia.
    + rewrite Z.quot_small in H by lia. lia.
  - intros H.
    assert (Hq : (Z.quot (Zpos d) (Zpos d) <= Z.quot n (Zpos d))%Z)
      by (apply Z.quot_le_mono; lia).
    rewrite Z.quot_same in Hq by lia. exact Hq.
Qed.

(** On non-negative numbers [int] is the floor. *)
Lemma int_floor (x : Q) : 0 <= x -> int x = Qfloor x.
Proof.
  destruct x as [n d]. unfold int, Qle, Qfloor; cbn [Qnum Qden].
  rewrite Z.mul_1_r. intros H. apply Z.quot_div_nonneg; lia.
Qed.

Lemma Qfloor_unique (x : Q) (z : Z) :
  inject_Z z <= x -> x < inject_Z (z + 1) -> Qfloor x = z.
Proof.
  intros Hlo Hhi. apply Z.le_antisymm.
  - assert (H : (Qfloor x < z + 1)%Z).
    { rewrite Zlt_Qlt. apply Qle_lt_trans with x; [apply Qfloor_le | exact Hhi]. }
    lia.
  - rewrite <- (Qfloor_Z z). apply Qfloor_resp_le. exact Hlo.
Qed.

Module CallBucketRemaining.
Import CallBucket CallBucketHistory CallBucketSpec.

Lemma refilled_bounds (cpm t now : Q) (s : self) :
  0 < cpm -> inv cpm t s -> t <= now -> 0 <= refilled now s <= cpm.
Proof.
  intros Hr (Hrate & Hcap & Hlast & Hlo & Hhi) Hnow.
  assert (Hnew : 0 <= (now - last_update s) / 60 * calls_per_minute s).
  { apply CallBucketFacts.elapsed_nonneg; rewrite ?Hrate; lra. }
  unfold refilled. rewrite Hcap. apply Qmin_bounds; lra.
Qed.

Lemma refilled_mono (cpm t now now' : Q) (s : self) :
  0 < cpm -> inv cpm t s -> now <= now' -> refilled now s <= refilled now' s.
Proof.
  intros Hr (Hrate & _) Hle. unfold refilled. apply Q.min_le_compat_l.
  rewrite Hrate. apply Qplus_le_r. apply Qmult_le_compat_r; [| lra].
  apply Qmult_le_compat_r; [lra | vm_compute; discriminate].
Qed.

Lemma remaining_inv (cpm t now now' : Q) (s : self) :
  0 < cpm -> inv cpm t s -> t <= now -> now <= now' ->
  (0 <= fst (get_remaining_calls now s))%Z /\
  inject_Z (fst (get_remaining_calls now s)) <= cpm /\
  (fst (get_remaining_calls now s) <= fst (get_remaining_calls now' s))%Z.
Proof.
  intros Hr Hinv Hnow Hle.
  rewrite !CallBucketFacts.get_remaining_calls_eq. cbn [fst].
  destruct (refilled_bounds cpm t now s Hr Hinv Hnow) as [Hlo Hhi].
  assert (Hnow' : t <= now') by lra.
  destruct (refilled_bounds cpm t now' s Hr Hinv Hnow') as [Hlo' _].
  rewrite !int_floor by assumption. repeat split.
  - rewrite <- (Qfloor_Z 0). apply Qfloor_resp_le. exact Hlo.
  - apply Qle_trans with (refilled now s); [apply Qfloor_le | exact Hhi].
  - apply Qfloor_resp_le. apply (refilled_mono cpm t); assumption.
Qed.

(** At the clock reading of an [acquire], the count read after it. *)
Lemma remaining_after_acquire (cpm t now : Q) (s : self) :
  0 < cpm -> inv cpm t s -> t <= now ->
  fst (get_remaining_calls now (snd (acquire now s)))
    = (fst (get_remaining_calls now s) - (if fst (acquire now s) then 1 else 0))%Z.
Proof.
  intros Hr Hinv Hnow.
  destruct (refilled_bounds cpm t now s Hr Hinv Hnow) as [Hlo Hhi].
  destruct Hinv as (Hrate & Hcap & _).
  rewrite !CallBucketFacts.get_remaining_calls_eq, CallBucketFacts.cb_acquire_eq.
  cbn [fst]. set (c := refilled now s) in *.
  assert (Hsame : forall v : Q, v <= cpm ->
            Qmin (max_calls s) (v + (now - now) / 60 * calls_per_minute s) == v).
  { intros v Hv. rewrite Hcap.
    assert (E : v + (now - now) / 60 * calls_per_minute s == v) by field.
    rewrite E. apply Q.min_r. exact Hv. }
  destruct (geb c 1) eqn:E; cbn [fst snd]; unfold refilled;
    cbn [max_calls calls last_update calls_per_minute].
  - apply geb_true in E.
    assert (Hv : c - 1 <= cpm) by lra.
    rewrite int_floor by (rewrite (Hsame _ Hv); lra).
    rewrite (Qfloor_comp _ _ (Hsame _ Hv)), int_floor by exact Hlo.
    apply Qfloor_unique.
    + unfold Z.sub. rewrite inject_Z_plus, inject_Z_opp.
      pose proof (Qfloor_le c) as H. change (inject_Z 1) with 1. lra.
    + replace (Qfloor c - 1 + 1)%Z with (Qfloor c + 0)%Z by lia.
      pose proof (Qlt_floor c) as H. rewrite inject_Z_plus in H |- *.
      change (inject_Z 1) with 1 in H. change (inject_Z 0) with 0. lra.
  - rewrite int_floor by (rewrite (Hsame _ Hhi); exact Hlo).
    rewrite (Qfloor_comp _ _ (Hsame _ Hhi)), int_floor by exact Hlo. lia.
Qed.

End CallBucketRemaining.

(** X6. At any clock reading and on any bucket, [CallBucket.acquire] admits
    the call exactly when [get_remaining_calls] at that reading is at least
    1. *)
Theorem acquire_iff_remaining (now : Q) (s : CallBucket.self) :
  fst (CallBucket.acquire now s) = true
  <-> (1 <= fst (CallBucket.get_remaining_calls now s))%Z.
Proof.
  rewrite CallBucketFacts.cb_acquire_eq, CallBucketFacts.get_remaining_calls_eq.
  cbn [fst]. rewrite int_ge_1.
  destruct (geb (CallBucketSpec.refilled now s) 1) eqn:E; cbn [fst].
  - apply geb_true in E. split; [intros _; exact E | reflexivity].
  - apply geb_false in E. split; [discriminate | intros H; lra].
Qed.

(** X7. On a [CallBucket] with positive [calls_per_minute] reached by any
    history of calls, [get_remaining_calls] returns a count between 0 and
    [calls_per_minute], and a later reading of the clock never returns a
    smaller count. *)
Theorem remaining_calls_bounds (cpm t0 now now' : Q) (cs : list (Q * CallBucket.call)) :
  0 < cpm ->
  nondecreasing t0 (map fst cs ++ [now]) = true ->
  now <= now' ->
  let s := snd (mapM CallBucketHistory.perform cs (CallBucket.__init__ cpm t0)) in
  (0 <= fst (CallBucket.get_remaining_calls now s))%Z /\
  inject_Z (fst (CallBucket.get_remaining_calls now s)) <= cpm /\
  (fst (CallBucket.get_remaining_calls now s)
   <= fst (CallBucket.get_remaining_calls now' s))%Z.
Proof.
  intros Hr Hclock Hle s.
  destruct (mapM_invariant CallBucketHistory.perform fst (CallBucketSpec.inv cpm) now)
    with (l := cs) (t := t0) (s := CallBucket.__init__ cpm t0) as (t' & HI & Ht').
  - intros t a s' HI Hle'. apply (CallBucketFacts.perform_inv cpm t); assumption.
  - apply CallBucketFacts.cb_init_inv. exact Hr.
  - exact Hclock.
  - apply (CallBucketRemaining.remaining_inv cpm t'); assumption.
Qed.

Lemma remaining_calls_bounds_witness :
  let cs := [(0, CallBucket.Acquire); (0, CallBucket.Acquire);
             (6, CallBucket.Acquire)] in
  0 < 2 /\ nondecreasing 0 (map fst cs ++ [12]) = true /\ 12 <= 40 /\
  let s := snd (mapM CallBucketHistory.perform cs (CallBucket.__init__ 2 0)) in
  (0 <= fst (CallBucket.get_remaining_calls 12 s))%Z /\
  inject_Z (fst (CallBucket.get_remaining_calls 12 s)) <= 2 /\
  (fst (CallBucket.get_remaining_calls 12 s)
   <= fst (CallBucket.get_remaining_calls 40 s))%Z.
Proof.
  intros cs. split; [reflexivity |]. split; [reflexivity |].
  split; [vm_compute; discriminate |].
  apply (remaining_calls_bounds 2 0 12 40 cs);
    [reflexivity | reflexivity | vm_compute; discriminate].
Defined.

(** X8. On a [CallBucket] with positive [calls_per_minute] reached by any
    history of calls, an [acquire] at clock reading [now] lowers the count
    [get_remaining_calls] reads at [now] by exactly one when it is admitted,
    and leaves that count as it was when it is denied. *)
Theorem acquire_lowers_remaining (cpm t0 now : Q) (cs : list (Q * CallBucket.call)) :
  0 < cpm ->
  nondecreasing t0 (map fst cs ++ [now]) = true ->
  let s := snd (mapM CallBucketHistory.perform cs (CallBucket.__init__ cpm t0)) in
  let r := CallBucket.acquire now s in
  fst (CallBucket.get_remaining_calls now (snd r))
    = (fst (CallBucket.get_remaining_calls now s) - (if fst r then 1 else 0))%Z.
Proof.
  intros Hr Hclock s r.
  destruct (mapM_invariant CallBucketHistory.perform fst (CallBucketSpec.inv cpm) now)
    with (l := cs) (t := t0) (s := CallBucket.__init__ cpm t0) as (t' & HI & Ht').
  - intros t a s' HI Hle'. apply (CallBucketFacts.perform_inv cpm t); assumption.
  - apply CallBucketFacts.cb_init_inv. exact Hr.
  - exact Hclock.
  - apply (CallBucketRemaining.remaining_after_acquire cpm t'); assumption.
Qed.

Lemma acquire_lowers_remaining_witness :
  let cs := [(0, CallBucket.Acquire); (20, CallBucket.GetRemainingCalls)] in
  0 < 3 /\ nondecreasing 0 (map fst cs ++ [30]) = true /\
  let s := snd (mapM CallBucketHistory.perform cs (CallBucket.__init__ 3 0)) in
  let r := CallBucket.acquire 30 s in
  fst (CallBucket.get_remaining_calls 30 (snd r))
    = (fst (CallBucket.get_remaining_calls 30 s) - (if fst r then 1 else 0))%Z.
Proof.
  intros cs. split; [reflexivity |]. split; [reflexivity |].
  apply (acquire_lowers_remaining 3 0 30 cs); reflexivity.
Defined.

(** ** Buckets that never admit *)

Module CallBucketStarved.
Import CallBucket CallBucketHistory CallBucketSpec.

Lemma refilled_le_max (now : Q) (s : self) : refilled now s <= max_calls s.
Proof. apply Q.le_min_l. Qed.

Lemma acquire_starved (cpm now : Q) (s : self) :
  cpm < 1 -> starved cpm s ->
  fst (acquire now s) = false /\ starved cpm (snd (acquire now s)).
Proof.
  intros Hc (Hrate & Hcap & Hle).
  pose proof (refilled_le_max now s) as Hm. rewrite Hcap in Hm.
  rewrite CallBucketFacts.cb_acquire_eq.
  destruct (geb (refilled now s) 1) eqn:E.
  - apply geb_true in E. lra.
  - cbn [fst snd]. split; [reflexivity |]. repeat split; assumption.
Qed.

Lemma perform_starved (cpm : Q) (c : Q * call) (s : self) :
  cpm < 1 -> starved cpm s -> starved cpm (snd (perform c s)).
Proof.
  intros Hc Hs. destruct (is_acquire c) eqn:E.
  - destruct c as [now []]; try discriminate.
    rewrite CallBucketFacts.perform_acquire. cbn [snd].
    apply (acquire_starved cpm now s Hc Hs).
  - rewrite (CallBucketFacts.perform_query c s E). exact Hs.
Qed.

Lemma history_starved (cpm : Q) (cs : list (Q * call)) :
  cpm < 1 ->
  forall s : self, starved cpm s -> starved cpm (snd (mapM perform cs s)).
Proof.
  intros Hc. induction cs as [| c cs IH]; intros s Hs; [exact Hs |].
  rewrite mapM_cons. cbn [snd]. apply IH. apply perform_starved; assumption.
Qed.

Lemma init_starved (cpm t0 : Q) : starved cpm (__init__ cpm t0).
Proof. unfold starved, __init__; cbn. repeat split; lra. Qed.

End CallBucketStarved.

(** X9. A [CallBucket] built with [calls_per_minute] equal to zero never
    admits a call, and [get_time_to_next_call] raises [ZeroDivisionError] on
    it, after any history of calls and at any clock reading. *)
Theorem zero_rate_call_bucket_raises (cpm t0 now : Q)
    (cs : list (Q * CallBucket.call)) :
  cpm == 0 ->
  let s := snd (mapM CallBucketHistory.perform cs (CallBucket.__init__ cpm t0)) in
  fst (CallBucket.acquire now s) = false /\
  fst (CallBucket.get_time_to_next_call now s) = None.
Proof.
  intros Hz s.
  assert (Hc : cpm < 1) by lra.
  pose proof (CallBucketStarved.history_starved cpm cs Hc _
                (CallBucketStarved.init_starved cpm t0)) as Hs.
  fold s in Hs. split.
  - apply (CallBucketStarved.acquire_starved cpm now s Hc Hs).
  - destruct Hs as (Hrate & Hcap & Hle).
    pose proof (CallBucketStarved.refilled_le_max now s) as Hm. rewrite Hcap in Hm.
    rewrite CallBucketFacts.get_time_to_next_call_eq. cbn [fst].
    assert (E1 : geb (CallBucket.calls s) 1 = false) by (apply geb_false; lra).
    assert (E2 : geb (CallBucketSpec.refilled now s) 1 = false)
      by (apply geb_false; lra).
    rewrite E1, E2, Hrate. unfold truediv.
    assert (E3 : Qeq_bool cpm 0 = true) by (apply Qeq_bool_iff; exact Hz).
    rewrite E3. reflexivity.
Qed.

Lemma zero_rate_call_bucket_raises_witness :
  let cs := [(0, CallBucket.Acquire); (100, CallBucket.GetRemainingCalls);
             (5000, CallBucket.Acquire)] in
  0 == 0 /\
  let s := snd (mapM CallBucketHistory.perform cs (CallBucket.__init__ 0 0)) in
  fst (CallBucket.acquire 9000 s) = false /\
  fst (CallBucket.get_time_to_next_call 9000 s) = None.
Proof.
  intros cs. split; [reflexivity |].
  apply (zero_rate_call_bucket_raises 0 0 9000 cs). reflexivity.
Defined.

(** X10. A [CallBucket] built with [0 < calls_per_minute < 1] never admits a
    call, at whatever clock reading and after any history of calls; yet
    [get_time_to_next_call] returns a positive number of seconds on it every
    time. *)
Theorem fractional_call_bucket_never_admits (cpm t0 now : Q)
    (cs : list (Q * CallBucket.call)) :
  0 < cpm -> cpm < 1 ->
  let s := snd (mapM CallBucketHistory.perform cs (CallBucket.__init__ cpm t0)) in
  fst (CallBucket.acquire now s) = false /\
  exists w : Q, fst (CallBucket.get_time_to_next_call now s) = Some w /\ 0 < w.
Proof.
  intros Hpos Hc s.
  pose proof (CallBucketStarved.history_starved cpm cs Hc _
                (CallBucketStarved.init_starved cpm t0)) as Hs.
  fold s in Hs. split.
  - apply (CallBucketStarved.acquire_starved cpm now s Hc Hs).
  - destruct Hs as (Hrate & Hcap & Hle).
    pose proof (CallBucketStarved.refilled_le_max now s) as Hm. rewrite Hcap in Hm.
    rewrite CallBucketFacts.get_time_to_next_call_eq. cbn [fst].
    assert (E1 : geb (CallBucket.calls s) 1 = false) by (apply geb_false; lra).
    assert (E2 : geb (CallBucketSpec.refilled now s) 1 = false)
      by (apply geb_false; lra).
    rewrite E1, E2, Hrate. unfold truediv.
    destruct (Qeq_bool cpm 0) eqn:E3; [apply Qeq_bool_iff in E3; lra |].
    cbn [option_map]. eexists. split; [reflexivity |].
    apply Qmult_lt_0_compat; [| reflexivity].
    apply Qlt_shift_div_l; lra.
Qed.

Lemma fractional_call_bucket_never_admits_witness :
  let cs := [(0, CallBucket.Acquire); (600, CallBucket.Acquire)] in
  0 < 1 # 2 /\ 1 # 2 < 1 /\
  let s := snd (mapM CallBucketHistory.perform cs (CallBucket.__init__ (1 # 2) 0)) in
  fst (CallBucket.acquire 86400 s) = false /\
  exists w : Q, fst (CallBucket.get_time_to_next_call 86400 s) = Some w /\ 0 < w.
Proof.
  intros cs. split; [reflexivity |]. split; [reflexivity |].
  apply (fractional_call_bucket_never_admits (1 # 2) 0 86400 cs); reflexivity.
Defined.

(** ** Bursts *)

Lemma mapM_app {S A B : Type} (f : A -> State S B) (l1 l2 : list A) :
  forall s : S,
    fst (mapM f (l1 ++ l2) s)
      = fst (mapM f l1 s) ++ fst (mapM f l2 (snd (mapM f l1 s))).
Proof.
  induction l1 as [| a l1 IH]; intros s; [reflexivity |].
  rewrite <- app_comm_cons, !mapM_cons. cbn [fst snd]. rewrite IH. reflexivity.
Qed.

Lemma inject_Z_succ (n : nat) :
  inject_Z (Z.of_nat (S n)) == inject_Z (Z.of_nat n) + 1.
Proof. rewrite Nat2Z.inj_succ. unfold Z.succ. rewrite inject_Z_plus. reflexivity. Qed.

Lemma inject_Z_nat_nonneg (n : nat) : 0 <= inject_Z (Z.of_nat n).
Proof. change 0 with (inject_Z 0). rewrite <- Zle_Qle. apply Nat2Z.is_nonneg. Qed.

Module TokenBucketBurst.
Import TokenBucket TokenBucketSpec.

(** With no time passing, a bucket holding at least [n] tokens grants [n]
    calls in a row and is left with [n] tokens fewer. *)
Lemma tb_immediate_grants (t0 rate : Q) (n : nat) :
  forall (v : Q) (s : self),
    rate_limit s == rate -> tokens s == v -> last_update s == t0 ->
    inject_Z (Z.of_nat n) <= v -> v <= rate ->
    let r := mapM acquire (repeat t0 n) s in
    fst r = repeat true n /\
    rate_limit (snd r) == rate /\
    tokens (snd r) == v - inject_Z (Z.of_nat n) /\
    last_update (snd r) == t0.
Proof.
  induction n as [| n IH]; intros v s Hrate Hv Hlast Hn Hle.
  - cbn [repeat mapM]. unfold ret; cbn [fst snd]. repeat split; try assumption.
    rewrite Hv. change (inject_Z (Z.of_nat 0)) with 0. lra.
  - pose proof (inject_Z_succ n) as Hsucc. pose proof (inject_Z_nat_nonneg n) as Hn0.
    rewrite Hsucc in Hn.
    destruct (TokenBucketSteps.tb_acquire_step t0 rate v 0 s) as (R & K & V & L);
      try assumption; [rewrite Hlast; lra |].
    assert (Hmin : Qmin rate (v + 0 * rate) == v).
    { rewrite Q.min_r by lra. lra. }
    rewrite (geb_proper _ _ 1 Hmin) in R, V.
    assert (Hge : geb v 1 = true) by (apply geb_true; lra).
    rewrite Hge in R, V. rewrite Hmin in V.
    cbn [repeat]. cbv zeta. rewrite mapM_cons. cbn [fst snd].
    destruct (IH (v - 1) (snd (acquire t0 s))) as (R' & K' & V' & L');
      try assumption; try lra; [rewrite L; reflexivity |].
    rewrite R, R'. repeat split; try assumption.
    rewrite V', Hsucc. lra.
Qed.

(** With no time passing, a bucket holding less than one token denies every
    call. *)
Lemma tb_immediate_denials (t0 rate v : Q) (m : nat) :
  v < 1 -> v <= rate ->
  forall s : self,
    rate_limit s == rate -> tokens s == v -> last_update s == t0 ->
    fst (mapM acquire (repeat t0 m) s) = repeat false m.
Proof.
  intros Hv Hle. induction m as [| m IH]; intros s Hrate Htok Hlast; [reflexivity |].
  destruct (TokenBucketSteps.tb_acquire_step t0 rate v 0 s) as (R & K & V & L);
    try assumption; [rewrite Hlast; lra |].
  assert (Hmin : Qmin rate (v + 0 * rate) == v).
  { rewrite Q.min_r by lra. lra. }
  rewrite (geb_proper _ _ 1 Hmin) in R, V.
  assert (Hlt : geb v 1 = false) by (apply geb_false; exact Hv).
  rewrite Hlt in R, V. rewrite Hmin in V.
  cbn [repeat]. rewrite mapM_cons. cbn [fst]. rewrite R.
  rewrite (IH (snd (acquire t0 s))); [reflexivity | exact K | exact V |].
  rewrite L. reflexivity.
Qed.

End TokenBucketBurst.

(** X11. A new [TokenBucket] called repeatedly with no time passing admits
    exactly the first [k] calls, where [k] is the integer part of
    [rate_limit], and denies every call after them. *)
Theorem token_bucket_burst (rate t0 : Q) (k m : nat) :
  inject_Z (Z.of_nat k) <= rate ->
  rate < inject_Z (Z.of_nat k) + 1 ->
  fst (mapM TokenBucket.acquire (repeat t0 (k + m)) (TokenBucket.__init__ rate t0))
    = repeat true k ++ repeat false m.
Proof.
  intros Hlo Hhi.
  pose proof (inject_Z_nat_nonneg k) as Hk0.
  rewrite repeat_app, mapM_app.
  destruct (TokenBucketBurst.tb_immediate_grants t0 rate k rate
              (TokenBucket.__init__ rate t0))
    as (R & K & V & L); try reflexivity; try lra.
  rewrite R. f_equal.
  apply (TokenBucketBurst.tb_immediate_denials t0 rate
           (rate - inject_Z (Z.of_nat k))); try assumption; lra.
Qed.

Lemma token_bucket_burst_witness :
  inject_Z (Z.of_nat 3) <= 7 # 2 /\ 7 # 2 < inject_Z (Z.of_nat 3) + 1 /\
  fst (mapM TokenBucket.acquire (repeat 10 (3 + 2)) (TokenBucket.__init__ (7 # 2) 10))
    = repeat true 3 ++ repeat false 2.
Proof.
  split; [vm_compute; discriminate |]. split; [reflexivity |].
  apply (token_bucket_burst (7 # 2) 10 3 2); [vm_compute; discriminate | reflexivity].
Defined.

Module RPMBucketBurst.
Import RPMBucket RPMBucketSpec.


End RPMBucketBurst.



(** ** What [RPMBucket] prints *)

Module RPMBucketOutput.
Import RPMBucket RPMBucketSpec.

Lemma rpm_history_output (rate : Q) (ts : list Q) :
  0 < rate ->
  forall (w : world) (t : Q),
    inv rate t w -> nondecreasing t ts = true ->
    let r := mapM acquire ts w in
    exists printed : list Q,
      stdout (snd r) = stdout w ++ printed /\
      length printed = length (List.filter negb (fst r)) /\
      Forall (fun p => 0 <= p < 1) printed.
Proof.
  intros Hr. induction ts as [| now ts IH]; intros w t Hinv Hclock; cbv zeta.
  - exists []. cbn [mapM]. unfold ret. cbn [fst snd]. rewrite app_nil_r.
    repeat split. constructor.
  - cbn [nondecreasing] in Hclock. apply andb_true_iff in Hclock as [Hle Hrest].
    apply Qle_bool_iff in Hle.
    pose proof (RPMBucketFacts.rpm_acquire_inv rate t now w Hr Hinv Hle) as Hinv1.
    destruct (IH (snd (acquire now w)) now Hinv1 Hrest) as (printed & Hout & Hlen & Hall).
    rewrite mapM_cons. cbn [fst snd]. rewrite Hout.
    destruct Hinv1 as (_ & _ & _ & Hlo & _). revert Hlo Hlen.
    generalize (mapM acquire ts (snd (acquire now w))). intros r'.
    rewrite RPMBucketFacts.rpm_acquire_eq.
    destruct (geb (refilled now (bucket w)) 1) eqn:E;
      cbn [fst snd bucket stdout current_request List.filter negb];
      intros Hlo Hlen.
    + exists printed. repeat split; assumption.
    + apply geb_false in E. exists (refilled now (bucket w) :: printed).
      rewrite <- app_assoc. cbn [app length]. repeat split.
      * rewrite Hlen. reflexivity.
      * constructor; [split; assumption | exact Hall].
Qed.

End RPMBucketOutput.

(** X13. Over any history of [acquire] calls with a clock that does not run
    backwards, an [RPMBucket] of positive rate appends to the standard output
    one line for each denied call and none for an admitted call, and every
    budget it prints is at least 0 and below 1. *)
Theorem rpm_bucket_prints_on_denial (rate t0 : Q) (ts : list Q) (out : list Q) :
  0 < rate ->
  nondecreasing t0 ts = true ->
  let r := mapM RPMBucket.acquire ts
             (RPMBucket.World (RPMBucket.__init__ rate t0) out) in
  exists printed : list Q,
    RPMBucket.stdout (snd r) = out ++ printed /\
    length printed = length (List.filter negb (fst r)) /\
    Forall (fun p => 0 <= p < 1) printed.
Proof.
  intros Hr Hclock.
  apply (RPMBucketOutput.rpm_history_output rate ts Hr
           (RPMBucket.World (RPMBucket.__init__ rate t0) out) t0
           (RPMBucketFacts.rpm_init_inv rate t0 out Hr) Hclock).
Qed.

Lemma rpm_bucket_prints_on_denial_witness :
  0 < 1 # 60 /\ nondecreasing 0 [0; 0; 30; 60] = true /\
  let r := mapM RPMBucket.acquire [0; 0; 30; 60]
             (RPMBucket.World (RPMBucket.__init__ (1 # 60) 0) []) in
  exists printed : list Q,
    RPMBucket.stdout (snd r) = [] ++ printed /\
    length printed = length (List.filter negb (fst r)) /\
    Forall (fun p => 0 <= p < 1) printed.
Proof.
  split; [reflexivity |]. split; [reflexivity |].
  apply (rpm_bucket_prints_on_denial (1 # 60) 0 [0; 0; 30; 60] []); reflexivity.
Defined.

(** ** [CallBucket] and [RPMBucket] are the same limiter *)

Module SameBucket.



End SameBucket.


(** * Further properties of [mcp2openai] *)

Module Mcp2OpenaiPost.
Import PyFacts.

(** The store after a run: the two new dicts, the schema, and the new list
    when there is one. *)
Lemma post (t : Tool) (h : heap) (d : gmap string val) (b : bool) :
  h !! inputSchema t = Some (ODict d) ->
  Py.truth (default VNone (d !! "required")) h = Some (b, h) ->
  exists (o fn e : loc) (h' : heap),
    mcp2openai t h = Some (VRef o, h') /\
    h !! o = None /\ h !! fn = None /\ h !! e = None /\ o <> fn /\
    h' !! o = Some (ODict (format_dict fn)) /\
    h' !! fn = Some (ODict (function_dict t)) /\
    h' !! inputSchema t
      = Some (ODict (if b then d else <["required" := VRef e]> d)) /\
    (b = false -> h' !! e = Some (OList [])).
Proof.
  intros Hs Ht.
  pose proof (Mcp2OpenaiFacts.run t h d b Hs Ht) as Hrun. cbv zeta in Hrun.
  set (fn := fresh (dom h)) in *.
  set (h1 := <[fn := ODict (function_dict t)]> h) in *.
  set (o := fresh (dom h1)) in *.
  set (h2 := <[o := ODict (format_dict fn)]> h1) in *.
  set (e := fresh (dom h2)) in *.
  assert (Hfn : h !! fn = None) by apply fresh_unused.
  assert (Ho : h1 !! o = None) by apply fresh_unused.
  assert (He : h2 !! e = None) by apply fresh_unused.
  unfold h1 in Ho. apply lookup_insert_None in Ho as [Ho Hfo].
  unfold h2, h1 in He. apply lookup_insert_None in He as [He Hoe].
  apply lookup_insert_None in He as [He Hfe].
  assert (Hso : inputSchema t <> o) by (intros E; rewrite E in Hs; congruence).
  assert (Hsf : inputSchema t <> fn) by (intros E; rewrite E in Hs; congruence).
  assert (Hse : inputSchema t <> e) by (intros E; rewrite E in Hs; congruence).
  assert (Ho2 : h2 !! o = Some (ODict (format_dict fn)))
    by (unfold h2; apply lookup_insert_eq).
  assert (Hfn2 : h2 !! fn = Some (ODict (function_dict t))).
  { unfold h2. rewrite lookup_insert_ne by congruence.
    unfold h1. apply lookup_insert_eq. }
  assert (Hs2 : h2 !! inputSchema t = Some (ODict d)).
  { unfold h2. rewrite lookup_insert_ne by congruence.
    unfold h1. rewrite lookup_insert_ne by congruence. exact Hs. }
  exists o, fn, e. eexists. split; [exact Hrun |].
  split; [exact Ho |]. split; [exact Hfn |]. split; [exact He |].
  split; [congruence |].
  destruct b.
  - split; [exact Ho2 |]. split; [exact Hfn2 |]. split; [exact Hs2 |].
    discriminate.
  - split.
    { rewrite lookup_insert_ne by exact Hso. rewrite lookup_insert_ne by congruence.
      exact Ho2. }
    split.
    { rewrite lookup_insert_ne by exact Hsf. rewrite lookup_insert_ne by congruence.
      exact Hfn2. }
    split; [apply lookup_insert_eq |].
    intros _. rewrite lookup_insert_ne by exact Hse. apply lookup_insert_eq.
Qed.

End Mcp2OpenaiPost.

(** X15. Whenever the tool's input schema is a dict, whatever its [required]
    entry, [mcp2openai] returns a new dict [{type: "function", function: f}]
    where [f] is another new dict holding the tool's name and description,
    [strict: False], and as [parameters] the tool's input schema object
    itself, not a copy. *)
Theorem translation_shape (t : Tool) (h : heap) (d : gmap string val) (b : bool) :
  h !! inputSchema t = Some (ODict d) ->
  Py.truth (default VNone (d !! "required")) h = Some (b, h) ->
  exists (o fn : loc) (h' : heap),
    mcp2openai t h = Some (VRef o, h') /\
    h !! o = None /\ h !! fn = None /\ o <> fn /\
    h' !! o = Some (ODict (<["type" := VStr "function"]>
                          (<["function" := VRef fn]> ∅))) /\
    h' !! fn = Some (ODict (<["name" := VStr (name t)]>
                           (<["description" := description t]>
                           (<["parameters" := VRef (inputSchema t)]>
                           (<["strict" := VBool false]> ∅))))).
Proof.
  intros Hs Ht.
  destruct (Mcp2OpenaiPost.post t h d b Hs Ht)
    as (o & fn & e & h' & Hrun & Ho & Hfn & _ & Hne & Ho' & Hfn' & _).
  exists o, fn, h'. repeat split; assumption.
Qed.

Lemma translation_shape_witness :
  store_normal !! inputSchema tool_x = Some (ODict schema_normal) /\
  Py.truth (default VNone (schema_normal !! "required")) store_normal
    = Some (true, store_normal) /\
  exists (o fn : loc) (h' : heap),
    mcp2openai tool_x store_normal = Some (VRef o, h') /\
    store_normal !! o = None /\ store_normal !! fn = None /\ o <> fn /\
    h' !! o = Some (ODict (<["type" := VStr "function"]>
                          (<["function" := VRef fn]> ∅))) /\
    h' !! fn = Some (ODict (<["name" := VStr "x"]>
                           (<["description" := VStr "d"]>
                           (<["parameters" := VRef 5%positive]>
                           (<["strict" := VBool false]> ∅))))).
Proof.
  split; [reflexivity |]. split; [reflexivity |].
  apply (translation_shape tool_x store_normal schema_normal true); reflexivity.
Defined.

(** X16. After [mcp2openai], the input schema always has a [required] entry,
    and reading [required] through the result never raises: the entry is the
    one the schema had when that was truthy, and otherwise a new empty list.
    Every other entry of the schema is as it was. *)
Theorem translation_normalizes_required (t : Tool) (h : heap)
    (d : gmap string val) (b : bool) :
  h !! inputSchema t = Some (ODict d) ->
  Py.truth (default VNone (d !! "required")) h = Some (b, h) ->
  exists (result v : val) (h' : heap) (d' : gmap string val),
    mcp2openai t h = Some (result, h') /\
    h' !! inputSchema t = Some (ODict d') /\
    d' !! "required" = Some v /\
    required_of result h' = Some (v, h') /\
    (forall k : string, k <> "required" -> d' !! k = d !! k) /\
    (if b then d !! "required" = Some v
     else exists e : loc,
            v = VRef e /\ h !! e = None /\ h' !! e = Some (OList [])).
Proof.
  intros Hs Ht.
  destruct (Mcp2OpenaiPost.post t h d b Hs Ht)
    as (o & fn & e & h' & Hrun & Ho & Hfn & He & Hne & Ho' & Hfn' & Hs' & He').
  assert (Hchain : forall (d' : gmap string val) (v : val),
            h' !! inputSchema t = Some (ODict d') -> d' !! "required" = Some v ->
            required_of (VRef o) h' = Some (v, h')).
  { intros d' v Hd' Hv. unfold required_of, Py.bind.
    unfold Py.getitem at 1. rewrite Ho'.
    change (format_dict fn !! "function") with (Some (VRef fn)).
    unfold Py.getitem at 1. rewrite Hfn'.
    change (function_dict t !! "parameters") with (Some (VRef (inputSchema t))).
    unfold Py.getitem. rewrite Hd', Hv. reflexivity. }
  destruct b.
  - destruct (d !! "required") as [v |] eqn:Hreq; [| discriminate Ht].
    exists (VRef o), v, h', d. repeat split; try assumption.
    apply (Hchain d v); assumption.
  - exists (VRef o), (VRef e), h', (<["required" := VRef e]> d).
    assert (Hv : <["required" := VRef e]> d !! "required" = Some (VRef e))
      by apply lookup_insert_eq.
    repeat split; try assumption.
    + apply (Hchain _ _ Hs' Hv).
    + intros k Hk. apply lookup_insert_ne. congruence.
    + exists e. repeat split; [exact He | apply He'; reflexivity].
Qed.

Lemma translation_normalizes_required_witness :
  store_plain !! inputSchema tool_x = Some (ODict schema_plain) /\
  Py.truth (default VNone (schema_plain !! "required")) store_plain
    = Some (false, store_plain) /\
  exists (result v : val) (h' : heap) (d' : gmap string val),
    mcp2openai tool_x store_plain = Some (result, h') /\
    h' !! inputSchema tool_x = Some (ODict d') /\
    d' !! "required" = Some v /\
    required_of result h' = Some (v, h') /\
    (forall k : string, k <> "required" -> d' !! k = schema_plain !! k) /\
    (if false then schema_plain !! "required" = Some v
     else exists e : loc,
            v = VRef e /\ store_plain !! e = None /\ h' !! e = Some (OList [])).
Proof.
  split; [reflexivity |]. split; [reflexivity |].
  apply (translation_normalizes_required tool_x store_plain schema_plain false);
    reflexivity.
Defined.

(** X17. When the tool's [inputSchema] attribute holds a list instead of a
    dict, [mcp2openai] raises: a list has no [get]. *)
Theorem translation_rejects_list_schema (t : Tool) (h : heap) (xs : list val) :
  h !! inputSchema t = Some (OList xs) ->
  mcp2openai t h = None.
Proof.
  intros Hs.
  set (fn := fresh (dom h)).
  set (h1 := <[fn := ODict (function_dict t)]> h).
  set (o := fresh (dom h1)).
  set (h2 := <[o := ODict (format_dict fn)]> h1).
  assert (Hsfn : fn <> inputSchema t) by (apply (PyFacts.used_ne_fresh h _ _ Hs)).
  assert (Hs1 : h1 !! inputSchema t = Some (OList xs)).
  { unfold h1. rewrite lookup_insert_ne by exact Hsfn. exact Hs. }
  assert (Hso : o <> inputSchema t) by (apply (PyFacts.used_ne_fresh h1 _ _ Hs1)).
  assert (Hs2 : h2 !! inputSchema t = Some (OList xs)).
  { unfold h2. rewrite lookup_insert_ne by exact Hso. exact Hs1. }
  assert (Hfn1 : h1 !! fn = Some (ODict (function_dict t)))
    by (unfold h1; apply lookup_insert_eq).
  assert (Hfo : o <> fn) by (apply (PyFacts.used_ne_fresh h1 _ _ Hfn1)).
  assert (Hfn2 : h2 !! fn = Some (ODict (function_dict t))).
  { unfold h2. rewrite lookup_insert_ne by exact Hfo. exact Hfn1. }
  assert (Ho2 : h2 !! o = Some (ODict (format_dict fn)))
    by (unfold h2; apply lookup_insert_eq).
  unfold mcp2openai, Py.bind, Py.alloc, Py.ret.
  fold fn. fold (function_dict t). fold h1. fold o. fold (format_dict fn). fold h2.
  unfold Py.getitem at 1. rewrite Ho2.
  change (format_dict fn !! "function") with (Some (VRef fn)).
  unfold Py.getitem at 1. rewrite Hfn2.
  change (function_dict t !! "parameters") with (Some (VRef (inputSchema t))).
  unfold Py.get. rewrite Hs2. reflexivity.
Qed.

Lemma translation_rejects_list_schema_witness :
  store_normal !! 4%positive = Some (OList [VStr "city"]) /\
  mcp2openai {| name := "x"; description := VNone; inputSchema := 4%positive |}
    store_normal = None.
Proof.
  split; [reflexivity |].
  apply (translation_rejects_list_schema
           {| name := "x"; description := VNone; inputSchema := 4%positive |}
           store_normal [VStr "city"]).
  reflexivity.
Defined.

(** * Refill after an idle period *)

Module RPMBucketLive.
Import RPMBucket RPMBucketSpec.

Lemma rpm_last_update (ts : list Q) :
  forall w : world,
    last_update (bucket (snd (mapM acquire ts w)))
      = List.last ts (last_update (bucket w)).
Proof.
  induction ts as [| now ts IH]; intros w; [reflexivity |].
  rewrite mapM_cons, last_cons_default. cbn [snd]. rewrite IH.
  rewrite RPMBucketFacts.rpm_acquire_eq.
  destruct (geb _ 1); reflexivity.
Qed.

Lemma rpm_admits_after_wait (rate t now : Q) (w : world) :
  0 < rate -> 1 <= rate * 60 -> inv rate t w ->
  last_update (bucket w) + 1 / rate <= now ->
  fst (acquire now w) = true.
Proof.
  intros Hr Hcap (Hrate & HRPM & _ & Hlo & _) Hwait.
  rewrite RPMBucketFacts.rpm_acquire_eq.
  assert (Hone : 1 <= (now - last_update (bucket w)) * rate).
  { assert (E : 1 == (1 / rate) * rate) by (field; lra).
    rewrite E. apply Qmult_le_compat_r; lra. }
  assert (Hge : 1 <= refilled now (bucket w)).
  { unfold refilled. rewrite Hrate, HRPM. apply Q.min_glb; lra. }
  apply geb_true in Hge. rewrite Hge. reflexivity.
Qed.

End RPMBucketLive.

(** X18. An [RPMBucket] with a positive [rate_limit] and a capacity
    [rate_limit * 60] of at least 1 admits every call made at least
    [1 / rate_limit] seconds after the call before it (or after the
    construction, for a first call), whatever the earlier calls were. *)
Theorem rpm_bucket_admits_after_wait (rate t0 now : Q) (ts : list Q) (out : list Q) :
  0 < rate -> 1 <= rate * 60 ->
  nondecreasing t0 ts = true ->
  List.last ts t0 + 1 / rate <= now ->
  fst (RPMBucket.acquire now
         (snd (mapM RPMBucket.acquire ts
                 (RPMBucket.World (RPMBucket.__init__ rate t0) out)))) = true.
Proof.
  intros Hr Hcap Hclock Hwait.
  destruct (RPMBucketRate.rpm_grants_potential rate ts Hr
              (RPMBucket.World (RPMBucket.__init__ rate t0) out) t0
              (RPMBucketFacts.rpm_init_inv rate t0 out Hr) Hclock) as [_ Hinv].
  apply (RPMBucketLive.rpm_admits_after_wait rate (List.last ts t0)); try assumption.
  rewrite RPMBucketLive.rpm_last_update. exact Hwait.
Qed.

Lemma rpm_bucket_admits_after_wait_witness :
  0 < 1 # 30 /\ 1 <= (1 # 30) * 60 /\ nondecreasing 0 [0; 0; 0; 5] = true /\
  List.last [0; 0; 0; 5] 0 + 1 / (1 # 30) <= 35 /\
  fst (RPMBucket.acquire 35
         (snd (mapM RPMBucket.acquire [0; 0; 0; 5]
                 (RPMBucket.World (RPMBucket.__init__ (1 # 30) 0) [])))) = true.
Proof.
  split; [reflexivity |]. split; [vm_compute; discriminate |].
  split; [reflexivity |]. split; [vm_compute; discriminate |].
  apply (rpm_bucket_admits_after_wait (1 # 30) 0 35 [0; 0; 0; 5] []);
    [reflexivity | vm_compute; discriminate | reflexivity | vm_compute; discriminate].
Defined.

(** X19. However a [TokenBucket] of positive rate was used before, once it
    has been idle for a second it is full again: called repeatedly at one
    clock reading at least a second after its last call, it admits exactly
    the first [k] calls, [k] the integer part of [rate_limit], and denies the
    calls after them. *)
Theorem token_bucket_burst_after_idle (rate t0 now : Q) (ts : list Q) (k m : nat) :
  0 < rate ->
  nondecreasing t0 ts = true ->
  List.last ts t0 + 1 <= now ->
  inject_Z (Z.of_nat k) <= rate ->
  rate < inject_Z (Z.of_nat k) + 1 ->
  fst (mapM TokenBucket.acquire (repeat now (k + m))
         (snd (mapM TokenBucket.acquire ts (TokenBucket.__init__ rate t0))))
    = repeat true k ++ repeat false m.
Proof.
  intros Hr Hclock Hidle Hlo Hhi.
  destruct (TokenBucketRate.tb_grants_potential rate ts Hr
              (TokenBucket.__init__ rate t0) t0
              (TokenBucketFacts.tb_init_inv rate t0 Hr) Hclock)
    as [_ (Hrate & _ & Htok & Hcap)].
  pose proof (TokenBucketLive.tb_last_update ts (TokenBucket.__init__ rate t0)) as Hlast.
  cbn [TokenBucket.__init__ TokenBucket.last_update] in Hlast.
  set (s := snd (mapM TokenBucket.acquire ts (TokenBucket.__init__ rate t0))) in *.
  destruct k as [| k].
  - cbn [Nat.add repeat app]. change (inject_Z (Z.of_nat 0)) with 0 in Hhi.
    rewrite TokenBucketStarved.all_denied by (rewrite Hrate; lra).
    rewrite repeat_length. reflexivity.
  - pose proof (inject_Z_succ k) as Hsucc. pose proof (inject_Z_nat_nonneg k) as Hk0.
    rewrite Hsucc in Hlo, Hhi.
    cbn [Nat.add repeat app]. rewrite mapM_cons. cbn [fst].
    destruct (TokenBucketSteps.tb_acquire_step now rate (TokenBucket.tokens s)
                (now - TokenBucket.last_update s) s)
      as (R & K & V & L); [rewrite Hrate; reflexivity | reflexivity | reflexivity |].
    assert (Hfull : Qmin rate (TokenBucket.tokens s
                               + (now - TokenBucket.last_update s) * rate) == rate).
    { apply Q.min_l. rewrite Hlast.
      assert (Hprod : 1 * rate <= (now - List.last ts t0) * rate)
        by (apply Qmult_le_compat_r; lra).
      lra. }
    rewrite (geb_proper _ _ 1 Hfull) in R, V.
    assert (Hge : geb rate 1 = true) by (apply geb_true; lra).
    rewrite Hge in R, V. rewrite Hfull in V. rewrite R.
    rewrite repeat_app, mapM_app.
    destruct (TokenBucketBurst.tb_immediate_grants now rate k (rate - 1)
                (snd (TokenBucket.acquire now s)))
      as (R' & K' & V' & L'); try assumption; try lra; [rewrite L; reflexivity |].
    rewrite R'. f_equal. f_equal.
    apply (TokenBucketBurst.tb_immediate_denials now rate
             (rate - 1 - inject_Z (Z.of_nat k))); try assumption; lra.
Qed.

Lemma token_bucket_burst_after_idle_witness :
  0 < 5 # 2 /\ nondecreasing 0 [0; 0; 0; 1 # 10] = true /\
  List.last [0; 0; 0; 1 # 10] 0 + 1 <= 2 /\
  inject_Z (Z.of_nat 2) <= 5 # 2 /\ 5 # 2 < inject_Z (Z.of_nat 2) + 1 /\
  fst (mapM TokenBucket.acquire (repeat 2 (2 + 2))
         (snd (mapM TokenBucket.acquire [0; 0; 0; 1 # 10]
                 (TokenBucket.__init__ (5 # 2) 0))))
    = repeat true 2 ++ repeat false 2.
Proof.
  split; [reflexivity |]. split; [reflexivity |].
  split; [vm_compute; discriminate |]. split; [vm_compute; discriminate |].
  split; [reflexivity |].
  apply (token_bucket_burst_after_idle (5 # 2) 0 2 [0; 0; 0; 1 # 10] 2 2);
    [reflexivity | reflexivity | vm_compute; discriminate
    | vm_compute; discriminate | reflexivity].
Defined.

(** X20. On a [CallBucket] with positive [calls_per_minute] reached by any
    history of calls, [get_remaining_calls] read a minute or more after the
    last [acquire] returns the integer part of [calls_per_minute]: the bucket
    is full again. *)
Theorem remaining_calls_after_idle (cpm t0 now : Q) (cs : list (Q * CallBucket.call)) :
  0 < cpm ->
  nondecreasing t0 (map fst cs ++ [now]) = true ->
  let s := snd (mapM CallBucketHistory.perform cs (CallBucket.__init__ cpm t0)) in
  CallBucket.last_update s + 60 <= now ->
  fst (CallBucket.get_remaining_calls now s) = int cpm.
Proof.
  intros Hr Hclock s Hidle.
  destruct (mapM_invariant CallBucketHistory.perform fst (CallBucketSpec.inv cpm) now)
    with (l := cs) (t := t0) (s := CallBucket.__init__ cpm t0) as (t' & HI & Ht').
  - intros t a s' HI Hle'. apply (CallBucketFacts.perform_inv cpm t); assumption.
  - apply CallBucketFacts.cb_init_inv. exact Hr.
  - exact Hclock.
  - fold s in HI. destruct HI as (Hrate & Hcap & _ & Hlo & _).
    rewrite CallBucketFacts.get_remaining_calls_eq. cbn [fst].
    assert (Hfull : CallBucketSpec.refilled now s == cpm).
    { unfold CallBucketSpec.refilled. rewrite Hrate, Hcap. apply Q.min_l.
      assert (Hmin : 1 <= (now - CallBucket.last_update s) / 60)
        by (apply Qle_shift_div_l; lra).
      assert (Hprod : 1 * cpm <= (now - CallBucket.last_update s) / 60 * cpm)
        by (apply Qmult_le_compat_r; lra).
      lra. }
    rewrite !int_floor by (rewrite ?Hfull; lra).
    apply Qfloor_comp. exact Hfull.
Qed.

Lemma remaining_calls_after_idle_witness :
  let cs := [(0, CallBucket.Acquire); (0, CallBucket.Acquire);
             (10, CallBucket.GetTimeToNextCall)] in
  0 < 5 # 2 /\ nondecreasing 0 (map fst cs ++ [75]) = true /\
  let s := snd (mapM CallBucketHistory.perform cs (CallBucket.__init__ (5 # 2) 0)) in
  CallBucket.last_update s + 60 <= 75 /\
  fst (CallBucket.get_remaining_calls 75 s) = int (5 # 2).
Proof.
  intros cs. split; [reflexivity |]. split; [reflexivity |].
  intros s. split; [vm_compute; discriminate |].
  apply (remaining_calls_after_idle (5 # 2) 0 75 cs);
    [reflexivity | reflexivity | vm_compute; discriminate].
Defined.
